(** * Aloha Editor: the container visibility groups

    A shallow embedding of [src/plugins/common/ui/lib/container.js], the
    module that decides which toolbar containers are shown for the current
    selection, and the properties of it that the specification states.

    The module keeps a private object [showGroups] that maps a key derived
    from a container's [showOn] value to a group: one [shouldShow] predicate
    and the array of the containers that share it.  The JavaScript objects
    involved are mutable and are compared by reference, so the embedding
    keeps them in a store: a container reference is an index into
    [objects], an array reference an index into [arrays], and a function
    object carries the identity it was created with. *)

From stdpp Require Import base list sets strings sorting.
From Stdlib Require Import Lia.

Set Default Proof Using "Type".

(** ** Completions: a call returns normally or throws *)

Inductive error := TypeError.

Inductive completion (A : Type) :=
| Normal (a : A)
| Throw (e : error).
Arguments Normal {A} a.
Arguments Throw {A} e.

(** ** Values *)

(** The identity of a function object.  Functions handed in by callers are
    named by the caller ([FUser]); [FClosure n] is the [n]-th function
    object created by an evaluation of a function expression inside
    [coerceShowOnToPredicate]; [FProto] is [Container.prototype.shouldShow]. *)
Inductive fid :=
| FUser (n : nat)
| FClosure (n : nat)
| FProto.

(** What [jQuery.type] calls the kinds of values that are neither
    [undefined], [null], a boolean, a string nor a function. *)
Inductive okind := KNumber | KArray | KDate | KRegExp | KObject.

Section Container.

(** DOM element handles, and [jQuery( el ).is( selector )]. *)
Context {Elem : Type}.
Variable jq_is : Elem -> string -> bool.

(** A function object: its identity, the text [toString()] yields for it,
    and what it answers for an element of the test sequence ([None] is
    [null]).  A [showOn] function is documented as [function():boolean];
    its answer is read as the truth value the caller tests. *)
Record func := Func {
  fn_id : fid;
  fn_src : string;
  fn_body : option Elem -> bool
}.

(** A [showOn] value.  A value of another kind is carried by its
    [jQuery.type] and by the string its [toString()] yields. *)
Inductive value :=
| VUndefined
| VNull
| VBool (b : bool)
| VString (s : string)
| VFunction (f : func)
| VOther (k : okind) (repr : string).

(** [jQuery.type( obj )]: the library's function, which answers
    [String( obj )] for [undefined] and [null] and the lower-cased class
    name of its [class2type] table otherwise. *)
Definition jQuery_type (obj : value) : string :=
  match obj with
  | VUndefined => "undefined"
  | VNull => "null"
  | VBool _ => "boolean"
  | VString _ => "string"
  | VFunction _ => "function"
  | VOther KNumber _ => "number"
  | VOther KArray _ => "array"
  | VOther KDate _ => "date"
  | VOther KRegExp _ => "regexp"
  | VOther KObject _ => "object"
  end.

(** [v.toString()]: a property access on [undefined] or [null] throws. *)
Definition toString (v : value) : completion string :=
  match v with
  | VUndefined | VNull => Throw TypeError
  | VBool true => Normal "true"
  | VBool false => Normal "false"
  | VString s => Normal s
  | VFunction f => Normal (fn_src f)
  | VOther _ repr => Normal repr
  end.

(** [generateKeyForShowOnValue]:
    [return jQuery.type( showOn ) + ':' + showOn.toString();]
    The left operand is evaluated first and cannot throw. *)
Definition generateKeyForShowOnValue (showOn : value) : completion string :=
  let ty := jQuery_type showOn in
  match toString showOn with
  | Normal str => Normal (ty +:+ ":" +:+ str)
  | Throw e => Throw e
  end.

(** ** The store *)

(** References to containers and to arrays. *)
Abbreviation cid := nat (only parsing).
Abbreviation aid := nat (only parsing).

(** A [Container] instance.  [element] is [null] ([None]) until [render]
    creates the wrapper; [Some d] is a wrapper whose display is on ([true])
    or off. *)
Record container := Container {
  visible : bool;
  element : option bool;
  activated : bool;
  showOn : value;
  shouldShow : func
}.

(** An entry of [showGroups]: [{ shouldShow: ..., containers: [...] }]. *)
Record group := Group {
  group_shouldShow : func;
  group_containers : list cid
}.

(** What a call does that the store does not show: a predicate applied to
    an element, and a [show]/[hide] method invoked on a container. *)
Inductive event :=
| Tested (f : fid) (el : option Elem)
| Invoked (c : cid) (action : string).

(** [showGroups] is a plain object whose keys all contain a colon, so it is
    enumerated by [for in] in insertion order: an association list. *)
Record state := State {
  showGroups : list (string * group);
  objects : list container;
  arrays : list (list (option Elem));
  closures : nat;
  trace : list event
}.

Definition init : state :=
  {| showGroups := []; objects := []; arrays := []; closures := 0; trace := [] |}.

Definition set_showGroups (gs : list (string * group)) (s : state) : state :=
  {| showGroups := gs; objects := objects s; arrays := arrays s;
     closures := closures s; trace := trace s |}.

Definition set_objects (os : list container) (s : state) : state :=
  {| showGroups := showGroups s; objects := os; arrays := arrays s;
     closures := closures s; trace := trace s |}.

Definition set_arrays (ars : list (list (option Elem))) (s : state) : state :=
  {| showGroups := showGroups s; objects := objects s; arrays := ars;
     closures := closures s; trace := trace s |}.

Definition set_closures (n : nat) (s : state) : state :=
  {| showGroups := showGroups s; objects := objects s; arrays := arrays s;
     closures := n; trace := trace s |}.

Definition set_trace (t : list event) (s : state) : state :=
  {| showGroups := showGroups s; objects := objects s; arrays := arrays s;
     closures := closures s; trace := t |}.

(** ** Calls: state passing with exceptions

    What a call wrote before it threw stays written. *)

Definition M (A : Type) : Type := state -> state * completion A.

Definition ret {A} (a : A) : M A := fun s => (s, Normal a).

Definition throw {A} (e : error) : M A := fun s => (s, Throw e).

Definition bind {A B} (m : M A) (k : A -> M B) : M B :=
  fun s =>
    match m s with
    | (s', Normal a) => k a s'
    | (s', Throw e) => (s', Throw e)
    end.

Notation "x <-- m ;; k" := (bind m (fun x => k))
  (at level 100, m at next level, right associativity).
Notation "m ;;; k" := (bind m (fun _ => k))
  (at level 100, right associativity).

Definition lift {A} (c : completion A) : M A := fun s => (s, c).

Definition emit (e : event) : M unit :=
  fun s => (set_trace (trace s ++ [e]) s, Normal tt).

(** Reading a container through a reference; a reference to no object
    behaves as [undefined], whose properties cannot be read. *)
Definition get_object (c : cid) : M container :=
  fun s =>
    match objects s !! c with
    | Some o => (s, Normal o)
    | None => (s, Throw TypeError)
    end.

Definition put_object (c : cid) (o : container) : M unit :=
  fun s => (set_objects (<[c := o]> (objects s)) s, Normal tt).

(** ** The predicates *)

Definition src_boolean : string := "function() {
				return showOn;
			}".
Definition src_string : string := "function( el ) {
				return el ? jQuery( el ).is( showOn ) : false;
			}".
Definition src_undefined : string := "function() {
				return true;
			}".
Definition src_default : string := "function() {
				return false;
			}".

(** Evaluating a function expression creates a new function object. *)
Definition new_closure (src : string) (body : option Elem -> bool) : M func :=
  fun s =>
    (set_closures (S (closures s)) s,
     Normal {| fn_id := FClosure (closures s); fn_src := src; fn_body := body |}).

(** [coerceShowOnToPredicate]: the [switch] on [jQuery.type( showOn )],
    written as a match on the value (see [coerce_dispatch] below for the
    agreement of the two). *)
Definition coerceShowOnToPredicate (showOn : value) : M func :=
  match showOn with
  | VFunction f => ret f
  | VBool b => new_closure src_boolean (fun _ => b)
  | VString sel =>
      new_closure src_string
        (fun el => match el with Some e => jq_is e sel | None => false end)
  | VUndefined => new_closure src_undefined (fun _ => true)
  | VNull | VOther _ _ => new_closure src_default (fun _ => false)
  end.

(** ** Registration *)

Definition gets {A} (f : state -> A) : M A := fun s => (s, Normal (f s)).

Definition modify (f : state -> state) : M unit := fun s => (f s, Normal tt).

(** [showGroups[ key ]] *)
Fixpoint group_lookup (key : string) (gs : list (string * group)) : option group :=
  match gs with
  | [] => None
  | (k, g) :: gs' => if String.eqb k key then Some g else group_lookup key gs'
  end.

(** [group.containers.push( container )] on the group stored under [key]. *)
Fixpoint group_push (key : string) (c : cid) (gs : list (string * group))
  : list (string * group) :=
  match gs with
  | [] => []
  | (k, g) :: gs' =>
      if String.eqb k key
      then (k, {| group_shouldShow := group_shouldShow g;
                  group_containers := group_containers g ++ [c] |}) :: gs'
      else (k, g) :: group_push key c gs'
  end.

Definition set_shouldShow (f : func) (o : container) : container :=
  {| visible := visible o; element := element o; activated := activated o;
     showOn := showOn o; shouldShow := f |}.

Definition set_showOn (v : value) (o : container) : container :=
  {| visible := visible o; element := element o; activated := activated o;
     showOn := v; shouldShow := shouldShow o |}.

(** [addToShowGroup( container )] *)
Definition addToShowGroup (c : cid) : M unit :=
  o <-- get_object c ;;
  key <-- lift (generateKeyForShowOnValue (showOn o)) ;;
  gs <-- gets showGroups ;;
  f <-- match group_lookup key gs with
        | Some g =>
            modify (set_showGroups (group_push key c gs)) ;;;
            ret (group_shouldShow g)
        | None =>
            f <-- coerceShowOnToPredicate (showOn o) ;;
            modify (set_showGroups
                      (gs ++ [(key, {| group_shouldShow := f;
                                       group_containers := [c] |})])) ;;;
            ret f
        end ;;
  put_object c (set_shouldShow f o).

(** ** The class *)

Definition src_proto : string := "function() {
			return true;
		}".

(** The properties an instance inherits from the prototype. *)
Definition prototype : container :=
  {| visible := true;
     element := None;
     activated := false;
     showOn := VBool true;
     shouldShow := {| fn_id := FProto; fn_src := src_proto;
                      fn_body := fun _ => true |} |}.

(** The [settings] object of the constructor; a property it does not have
    reads as [undefined]. *)
Record settings := Settings { settings_showOn : value }.

(** [new Container( settings )]: the instance is created, then
    [_constructor] runs on it.  [None] is a call without an argument, where
    reading [settings.showOn] throws. *)
Definition Container_new (st : option settings) : M cid :=
  this <-- gets (fun s => length (objects s)) ;;
  modify (fun s => set_objects (objects s ++ [prototype]) s) ;;;
  match st with
  | None => throw TypeError
  | Some st =>
      put_object this (set_showOn (settings_showOn st) prototype) ;;;
      addToShowGroup this ;;;
      ret this
  end.

(** [render]: [this.element = jQuery( '<div>', ... )], a new wrapper. *)
Definition render (c : cid) : M unit :=
  o <-- get_object c ;;
  put_object c {| visible := visible o; element := Some true;
                  activated := activated o; showOn := showOn o;
                  shouldShow := shouldShow o |}.

(** [show]: [this.element.show(); this.visible = true;] *)
Definition show (c : cid) : M unit :=
  o <-- get_object c ;;
  match element o with
  | None => throw TypeError
  | Some _ =>
      put_object c {| visible := true; element := Some true;
                      activated := activated o; showOn := showOn o;
                      shouldShow := shouldShow o |}
  end.

(** [hide]: [this.element.hide(); this.visible = false;] *)
Definition hide (c : cid) : M unit :=
  o <-- get_object c ;;
  match element o with
  | None => throw TypeError
  | Some _ =>
      put_object c {| visible := false; element := Some false;
                      activated := activated o; showOn := showOn o;
                      shouldShow := shouldShow o |}
  end.

(** ** Showing and hiding *)

(** [containers[ j ][ action ]()], for an [action] that passed the guard
    of [toggleContainers]. *)
Definition invoke (c : cid) (action : string) : M unit :=
  emit (Invoked c action) ;;;
  if String.eqb action "show" then show c else hide c.

(** [while ( j ) { containers[ --j ][ action ](); }] *)
Fixpoint toggle_loop (containers : list cid) (action : string) (j : nat) : M unit :=
  match j with
  | 0 => ret tt
  | S j' =>
      match containers !! j' with
      | Some c => invoke c action
      | None => throw TypeError
      end ;;;
      toggle_loop containers action j'
  end.

(** [toggleContainers( containers, action )] *)
Definition toggleContainers (containers : list cid) (action : string) : M unit :=
  if negb (String.eqb action "show") && negb (String.eqb action "hide")
  then ret tt
  else toggle_loop containers action (length containers).

(** The inner loop of [showContainersForElements]:
    [while ( j ) { if ( shouldShow( elements[ --j ] ) ) { show = true; break; } }]
    answering [show]. *)
Fixpoint test_elements (shouldShow : func) (elements : list (option Elem)) (j : nat)
  : M bool :=
  match j with
  | 0 => ret false
  | S j' =>
      let el := default None (elements !! j') in
      emit (Tested (fn_id shouldShow) el) ;;;
      if fn_body shouldShow el then ret true
      else test_elements shouldShow elements j'
  end.

(** The body of [for ( groupKey in showGroups )].  A group's [shouldShow]
    is a function object, which is never falsy, so the [continue] of the
    source is not reached.  Nothing in the body writes [showGroups], so
    the loop runs over the entries it started with. *)
Fixpoint for_each_group (gs : list (string * group)) (elements : list (option Elem))
  : M unit :=
  match gs with
  | [] => ret tt
  | (groupKey, group) :: rest =>
      show <-- test_elements (group_shouldShow group) elements (length elements) ;;
      toggleContainers (group_containers group) (if show then "show" else "hide") ;;;
      for_each_group rest elements
  end.

(** The argument of [showContainersForElements]: a reference to an array
    (anything truthy whose [push] is a function), or anything else. *)
Inductive argument :=
| ArrayRef (a : aid)
| NotArray.

(** [elements.push( null )] on the caller's array, answering its contents.
    (A reference to no array is treated like the other branch.) *)
Definition push_null (a : aid) : M (list (option Elem)) :=
  fun s =>
    match arrays s !! a with
    | Some xs => (set_arrays (<[a := xs ++ [None]]> (arrays s)) s, Normal (xs ++ [None]))
    | None => (s, Normal [None])
    end.

(** [Container.showContainersForElements( elements )] *)
Definition showContainersForElements (arg : argument) : M unit :=
  elements <-- match arg with
               | ArrayRef a => push_null a
               | NotArray => ret [None]
               end ;;
  gs <-- gets showGroups ;;
  for_each_group gs elements.

(** ** What the rest of the program can do with the module *)

Inductive call :=
| New (st : option settings)
| Render (c : cid)
| Show (c : cid)
| Hide (c : cid)
| ShowContainersForElements (arg : argument)
| NewArray (xs : list (option Elem)).

Definition step (k : call) (s : state) : state :=
  match k with
  | New st => fst (Container_new st s)
  | Render c => fst (render c s)
  | Show c => fst (show c s)
  | Hide c => fst (hide c s)
  | ShowContainersForElements arg => fst (showContainersForElements arg s)
  | NewArray xs => set_arrays (arrays s ++ [xs]) s
  end.

Definition run (ks : list call) (s : state) : state :=
  fold_left (fun s k => step k s) ks s.

(** ** Reading the store and the trace *)

(** The containers that sit in some group. *)
Definition registered (s : state) (c : cid) : Prop :=
  ∃ k g, (k, g) ∈ showGroups s ∧ c ∈ group_containers g.

(** A container that has been rendered: its [element] is not [null]. *)
Definition rendered (os : list container) (c : cid) : Prop :=
  ∃ o d, os !! c = Some o ∧ element o = Some d.

Definition all_rendered (s : state) : Prop :=
  ∀ c, registered s c → rendered (objects s) c.

(** [all_rendered], computed. *)
Definition all_renderedb (s : state) : bool :=
  forallb (fun kg : string * group =>
             forallb (fun c => match objects s !! c with
                               | Some o => bool_decide (is_Some (element o))
                               | None => false
                               end) (group_containers kg.2))
          (showGroups s).

(** The states the module can be in: those that calls lead to. *)
Definition reachable (s : state) : Prop := ∃ ks, s = run ks init.

(** The elements the caller passed: the contents of its array, or none. *)
Definition given_elements (arg : argument) (s : state) : list (option Elem) :=
  match arg with
  | ArrayRef a => default [] (arrays s !! a)
  | NotArray => []
  end.

(** The sequence the predicates are tested against: the caller's elements
    and the [null] pushed after them. *)
Definition test_sequence (arg : argument) (s : state) : list (option Elem) :=
  given_elements arg s ++ [None].

(** What a call added to the trace. *)
Definition events_since (s s' : state) : list event :=
  drop (length (trace s)) (trace s').

Definition is_test (e : event) : bool :=
  match e with Tested _ _ => true | Invoked _ _ => false end.

Definition is_invoke (e : event) : bool :=
  match e with Tested _ _ => false | Invoked _ _ => true end.

(** The number of containers in the groups. *)
Definition member_count (gs : list (string * group)) : nat :=
  sum_list (map (fun kg => length (group_containers (snd kg))) gs).

(** A walk that stops behind the first element that satisfies [p]. *)
Fixpoint upto_first {A} (p : A → bool) (l : list A) : list A :=
  match l with
  | [] => []
  | x :: l' => if p x then [x] else x :: upto_first p l'
  end.

Definition action_of (b : bool) : string := if b then "show" else "hide".

(** What [show] ([true]) and [hide] ([false]) leave of a rendered container. *)
Definition set_shown (b : bool) (o : container) : container :=
  {| visible := b; element := Some b; activated := activated o;
     showOn := showOn o; shouldShow := shouldShow o |}.

(** The store after the containers [cs] were all shown, or all hidden. *)
Definition mark (b : bool) (cs : list cid) (os : list container) : list container :=
  imap (fun i o => if bool_decide (i ∈ cs) then set_shown b o else o) os.

(** Whether a group is shown for a test sequence. *)
Definition decision (els : list (option Elem)) (g : group) : bool :=
  existsb (fn_body (group_shouldShow g)) els.

(** The tests of one group's walk, last element first. *)
Definition group_tests (els : list (option Elem)) (g : group) : list event :=
  map (Tested (fn_id (group_shouldShow g)))
      (upto_first (fn_body (group_shouldShow g)) (reverse els)).

(** The method calls on one group's members, last member first. *)
Definition group_invokes (els : list (option Elem)) (g : group) : list event :=
  map (fun c => Invoked c (action_of (decision els g))) (reverse (group_containers g)).

Fixpoint apply_groups (gs : list (string * group)) (els : list (option Elem))
  (os : list container) : list container :=
  match gs with
  | [] => os
  | (_, g) :: rest =>
      apply_groups rest els (mark (decision els g) (group_containers g) os)
  end.


(** The registry invariant. *)
Record wf (s : state) : Prop := {
  wf_keys : NoDup (showGroups s).*1;
  wf_members : ∀ k g c,
    (k, g) ∈ showGroups s → c ∈ group_containers g →
    ∃ o, objects s !! c = Some o
         ∧ generateKeyForShowOnValue (showOn o) = Normal k
         ∧ shouldShow o = group_shouldShow g;
  wf_sorted : ∀ k g,
    (k, g) ∈ showGroups s → StronglySorted lt (group_containers g);
  wf_nonempty : ∀ k g,
    (k, g) ∈ showGroups s → group_containers g ≠ []
}.

(** What [show], [hide] and [render] never change of a container. *)
Definition same_condition (o o' : container) : Prop :=
  showOn o' = showOn o ∧ shouldShow o' = shouldShow o ∧ activated o' = activated o.

(** A state that differs from [s] by shown, hidden or rendered containers
    and by a longer trace only, [ts] being the tests the trace gained. *)
Record toggled (ts : list event) (s s' : state) : Prop := {
  tg_groups : showGroups s' = showGroups s;
  tg_arrays : arrays s' = arrays s;
  tg_closures : closures s' = closures s;
  tg_length : length (objects s') = length (objects s);
  tg_objects : ∀ c o, objects s !! c = Some o →
    ∃ o', objects s' !! c = Some o' ∧ same_condition o o'
          ∧ (is_Some (element o) → is_Some (element o'));
  tg_trace : ∃ evs, trace s' = trace s ++ evs ∧ List.filter is_test evs = ts
}.

(** * Properties *)

(** ** The key *)

Lemma key_boolean b :
  generateKeyForShowOnValue (VBool b) = Normal (if b then "boolean:true" else "boolean:false").
Proof. by destruct b. Qed.

Lemma key_string str :
  generateKeyForShowOnValue (VString str) = Normal ("string:" +:+ str).
Proof. done. Qed.

Lemma key_function f :
  generateKeyForShowOnValue (VFunction f) = Normal ("function:" +:+ fn_src f).
Proof. done. Qed.

Lemma key_throws v :
  (∃ e, generateKeyForShowOnValue v = Throw e) ↔ v = VUndefined ∨ v = VNull.
Proof.
  split.
  - intros [e He]. destruct v as [| |[]| | |[]]; simpl in He; try discriminate; auto.
  - intros [->| ->]; by exists TypeError.
Qed.

(** The [switch] of [coerceShowOnToPredicate] is on [jQuery.type( showOn )];
    the branch of the match is the one the switch takes. *)
Lemma coerce_dispatch v :
  match v with
  | VFunction _ => jQuery_type v = "function"
  | VBool _ => jQuery_type v = "boolean"
  | VString _ => jQuery_type v = "string"
  | VUndefined => jQuery_type v = "undefined"
  | VNull | VOther _ _ =>
      jQuery_type v ∉ ["function"; "boolean"; "string"; "undefined"]
  end.
Proof.
  destruct v as [| | | | |[]]; simpl; try done;
    rewrite !elem_of_cons, elem_of_nil; intros H; repeat destruct H as [H|H]; done.
Qed.

(** ** The walk over the test sequence *)

Lemma existsb_reverse {A} (p : A → bool) l : existsb p (reverse l) = existsb p l.
Proof.
  induction l as [|x l IH]; [done|].
  rewrite reverse_cons, existsb_app, IH. simpl.
  rewrite orb_false_r. apply orb_comm.
Qed.

Lemma upto_first_length {A} (p : A → bool) l : length (upto_first p l) ≤ length l.
Proof. induction l as [|x l IH]; simpl; [done|]. destruct (p x); simpl; lia. Qed.

Lemma upto_first_prefix {A} (p : A → bool) l : upto_first p l `prefix_of` l.
Proof.
  induction l as [|x l IH]; simpl; [done|].
  destruct (p x).
  - by exists l.
  - by apply (prefix_app [x]).
Qed.

(** The walk stops at the first element the predicate accepts, or at the end. *)
Lemma upto_first_stops {A} (p : A → bool) l :
  (existsb p l = false ∧ upto_first p l = l)
  ∨ ∃ l1 x l2, l = l1 ++ x :: l2 ∧ upto_first p l = l1 ++ [x]
               ∧ p x = true ∧ existsb p l1 = false.
Proof.
  induction l as [|x l IH]; simpl; [by left|].
  destruct (p x) eqn:Hx.
  - right. by exists [], x, l.
  - destruct IH as [[H1 H2]|(l1 & y & l2 & -> & H2 & H3 & H4)].
    + left. by rewrite H2.
    + right. exists (x :: l1), y, l2. simpl. by rewrite H2, Hx.
Qed.

Lemma test_elements_spec f els j s :
  j ≤ length els →
  test_elements f els j s =
    (set_trace (trace s ++ map (Tested (fn_id f))
                              (upto_first (fn_body f) (reverse (take j els)))) s,
     Normal (existsb (fn_body f) (reverse (take j els)))).
Proof.
  revert s. induction j as [|j IH]; intros s Hj.
  - simpl. rewrite app_nil_r. by destruct s.
  - destruct (lookup_lt_is_Some_2 els j) as [el Hel]; [lia|].
    rewrite (take_S_r _ _ _ Hel), reverse_snoc. simpl.
    rewrite Hel. simpl. unfold bind at 1. simpl.
    destruct (fn_body f el) eqn:Hb; simpl.
    + done.
    + rewrite IH by lia. simpl. by rewrite <- app_assoc.
Qed.

Lemma test_elements_all f els s :
  test_elements f els (length els) s =
    (set_trace (trace s ++ map (Tested (fn_id f))
                              (upto_first (fn_body f) (reverse els))) s,
     Normal (existsb (fn_body f) els)).
Proof.
  rewrite test_elements_spec by done.
  by rewrite take_ge, existsb_reverse by done.
Qed.

(** ** Showing or hiding a group's members *)

Lemma mark_lookup b cs os i :
  mark b cs os !! i =
    (fun o => if bool_decide (i ∈ cs) then set_shown b o else o) <$> os !! i.
Proof. unfold mark. by rewrite list_lookup_imap. Qed.


Lemma mark_nil b os : mark b [] os = os.
Proof.
  apply list_eq. intros i. rewrite mark_lookup.
  rewrite bool_decide_eq_false_2 by apply not_elem_of_nil.
  by destruct (os !! i).
Qed.

Lemma mark_snoc b cs c o os :
  os !! c = Some o →
  mark b cs (<[c := set_shown b o]> os) = mark b (cs ++ [c]) os.
Proof.
  intros Hc. apply list_eq. intros i. rewrite !mark_lookup.
  destruct (decide (i = c)) as [->|Hne].
  - rewrite list_lookup_insert_eq by (by eapply lookup_lt_Some).
    rewrite Hc. simpl.
    rewrite (bool_decide_eq_true_2 (c ∈ cs ++ [c]))
      by (apply elem_of_app; right; apply list_elem_of_here).
    by destruct (bool_decide (c ∈ cs)).
  - rewrite list_lookup_insert_ne by done.
    destruct (os !! i); simpl; [|done].
    destruct (decide (i ∈ cs)) as [Hi|Hi].
    + rewrite !bool_decide_eq_true_2; [done| |done].
      apply elem_of_app. by left.
    + rewrite !bool_decide_eq_false_2; [done| |done].
      rewrite elem_of_app, list_elem_of_singleton. tauto.
Qed.

Lemma rendered_mark b cs os c : rendered os c → rendered (mark b cs os) c.
Proof.
  intros (o & d & Hc & He). unfold rendered. rewrite mark_lookup, Hc. simpl.
  destruct (bool_decide (c ∈ cs)); simpl; eauto.
Qed.

Lemma rendered_insert b c o os c' :
  rendered os c' → rendered (<[c := set_shown b o]> os) c'.
Proof.
  intros (o' & d & Hc & He). unfold rendered.
  destruct (decide (c = c')) as [->|Hne].
  - rewrite list_lookup_insert_eq by (by eapply lookup_lt_Some). simpl. eauto.
  - rewrite list_lookup_insert_ne by done. eauto.
Qed.

Lemma invoke_rendered b c o d s :
  objects s !! c = Some o → element o = Some d →
  invoke c (action_of b) s =
    (set_objects (<[c := set_shown b o]> (objects s))
       (set_trace (trace s ++ [Invoked c (action_of b)]) s), Normal tt).
Proof.
  intros Hc He. unfold invoke, bind, emit. simpl.
  destruct b; simpl; unfold show, hide, bind, get_object; simpl;
    by rewrite Hc, He.
Qed.

Lemma toggle_loop_spec b cs j s :
  j ≤ length cs →
  (∀ c, c ∈ take j cs → rendered (objects s) c) →
  toggle_loop cs (action_of b) j s =
    (set_trace (trace s ++ map (fun c => Invoked c (action_of b)) (reverse (take j cs)))
       (set_objects (mark b (take j cs) (objects s)) s), Normal tt).
Proof.
  revert s. induction j as [|j IH]; intros s Hj Hr.
  - simpl. rewrite app_nil_r, mark_nil. by destruct s.
  - destruct (lookup_lt_is_Some_2 cs j) as [c Hc]; [lia|].
    rewrite (take_S_r _ _ _ Hc) in *. rewrite reverse_snoc. simpl.
    rewrite Hc. unfold bind at 1.
    destruct (Hr c) as (o & d & Ho & He);
      [apply elem_of_app; right; apply list_elem_of_here|].
    rewrite (invoke_rendered b c o d s Ho He).
    rewrite IH; simpl.
    + rewrite (mark_snoc _ _ _ _ _ Ho). by rewrite <- app_assoc.
    + lia.
    + intros c' Hc'. apply rendered_insert, Hr, elem_of_app. by left.
Qed.

Lemma toggleContainers_spec b cs s :
  (∀ c, c ∈ cs → rendered (objects s) c) →
  toggleContainers cs (action_of b) s =
    (set_trace (trace s ++ map (fun c => Invoked c (action_of b)) (reverse cs))
       (set_objects (mark b cs (objects s)) s), Normal tt).
Proof.
  intros Hr. unfold toggleContainers.
  replace (negb (String.eqb (action_of b) "show") && negb (String.eqb (action_of b) "hide"))
    with false by (by destruct b).
  rewrite toggle_loop_spec; rewrite ?take_ge; done.
Qed.

(** ** One pass over the groups *)

Lemma for_each_group_spec els gs s :
  (∀ k g c, (k, g) ∈ gs → c ∈ group_containers g → rendered (objects s) c) →
  for_each_group gs els s =
    (set_trace (trace s ++ flat_map (fun kg => group_tests els kg.2 ++ group_invokes els kg.2) gs)
       (set_objects (apply_groups gs els (objects s)) s), Normal tt).
Proof.
  revert s. induction gs as [|[k g] gs IH]; intros s Hr.
  - simpl. rewrite app_nil_r. by destruct s.
  - simpl. unfold bind at 1. rewrite test_elements_all.
    unfold bind at 1.
    rewrite (toggleContainers_spec (existsb (fn_body (group_shouldShow g)) els)); simpl.
    + rewrite IH; simpl.
      * unfold group_tests, group_invokes, decision. by rewrite <- !app_assoc.
      * intros k' g' c Hin Hc. apply rendered_mark.
        eapply Hr; [|done]. by apply list_elem_of_further.
    + intros c Hc. eapply Hr; [|done]. apply list_elem_of_here.
Qed.

(** ** Calls that only show, hide or render *)

Lemma toggled_refl s : toggled [] s s.
Proof.
  split; try done.
  - intros c o Hc. exists o. by repeat split.
  - exists []. by rewrite app_nil_r.
Qed.

Lemma toggled_trans t1 t2 s1 s2 s3 :
  toggled t1 s1 s2 → toggled t2 s2 s3 → toggled (t1 ++ t2) s1 s3.
Proof.
  intros [G1 A1 C1 L1 O1 (e1 & T1 & F1)] [G2 A2 C2 L2 O2 (e2 & T2 & F2)].
  split; try congruence.
  - intros c o Hc.
    destruct (O1 c o Hc) as (o' & Hc' & (S1 & S2 & S3) & R1).
    destruct (O2 c o' Hc') as (o'' & Hc'' & (S1' & S2' & S3') & R2).
    exists o''. repeat split; try congruence. auto.
  - exists (e1 ++ e2). split.
    + by rewrite T2, T1, app_assoc.
    + by rewrite List.filter_app, F1, F2.
Qed.

Lemma toggled_set_trace evs s :
  toggled (List.filter is_test evs) s (set_trace (trace s ++ evs) s).
Proof.
  split; try done.
  - intros c o Hc. exists o. by repeat split.
  - by exists evs.
Qed.

Lemma toggled_put c o o' s :
  objects s !! c = Some o → same_condition o o' →
  (is_Some (element o) → is_Some (element o')) →
  toggled [] s (put_object c o' s).1.
Proof.
  intros Hc Hs Hr. split; simpl; try done.
  - by rewrite length_insert.
  - intros c' o0 Hc'. destruct (decide (c = c')) as [Heq|Hne].
    + subst c'. exists o'.
      rewrite list_lookup_insert_eq by (by eapply lookup_lt_Some).
      rewrite Hc in Hc'. injection Hc' as <-. auto.
    + exists o0. rewrite list_lookup_insert_ne by done. by repeat split.
  - exists []. by rewrite app_nil_r.
Qed.

Lemma toggled_show c s : toggled [] s (show c s).1.
Proof.
  unfold show, bind, get_object.
  destruct (objects s !! c) as [o|] eqn:Hc; simpl; [|apply toggled_refl].
  destruct (element o) eqn:He; simpl; [|apply toggled_refl].
  eapply toggled_put; [done|done|]. simpl. eauto.
Qed.

Lemma toggled_hide c s : toggled [] s (hide c s).1.
Proof.
  unfold hide, bind, get_object.
  destruct (objects s !! c) as [o|] eqn:Hc; simpl; [|apply toggled_refl].
  destruct (element o) eqn:He; simpl; [|apply toggled_refl].
  eapply toggled_put; [done|done|]. simpl. eauto.
Qed.

Lemma toggled_render c s : toggled [] s (render c s).1.
Proof.
  unfold render, bind, get_object.
  destruct (objects s !! c) as [o|] eqn:Hc; simpl; [|apply toggled_refl].
  eapply toggled_put; [done|done|]. simpl. eauto.
Qed.

Lemma toggled_invoke c a s : toggled [] s (invoke c a s).1.
Proof.
  unfold invoke, bind, emit.
  apply (toggled_trans [] [] _ _ _ (toggled_set_trace [Invoked c a] s)).
  destruct (String.eqb a "show"); [apply toggled_show | apply toggled_hide].
Qed.

Lemma toggled_toggle_loop cs a j s : toggled [] s (toggle_loop cs a j s).1.
Proof.
  revert s. induction j as [|j IH]; intros s; simpl; [apply toggled_refl|].
  unfold bind at 1.
  destruct (cs !! j) as [c|]; simpl; [|apply toggled_refl].
  pose proof (toggled_invoke c a s) as H1.
  destruct (invoke c a s) as [s1 []]; simpl in *; [|done].
  apply (toggled_trans [] [] _ _ _ H1), IH.
Qed.

Lemma toggled_toggleContainers cs a s : toggled [] s (toggleContainers cs a s).1.
Proof.
  unfold toggleContainers.
  destruct (_ && _); [apply toggled_refl | apply toggled_toggle_loop].
Qed.

Lemma filter_tested f l :
  List.filter is_test (map (Tested f) l) = map (Tested f) l.
Proof. induction l as [|x l IH]; simpl; [done|by rewrite IH]. Qed.

(** A pass over the groups, however it completes, tests group after group
    in the order of [showGroups], each by its walk, and stops with the
    group whose members could not be shown or hidden. *)
Lemma toggled_for_each_group els gs s :
  ∃ ts, toggled ts s (for_each_group gs els s).1
        ∧ ts `prefix_of` flat_map (fun kg => group_tests els kg.2) gs.
Proof.
  revert s. induction gs as [|[k g] gs IH]; intros s; simpl.
  - exists []. split; [apply toggled_refl|done].
  - unfold bind at 1. rewrite test_elements_all.
    unfold bind at 1.
    pose proof (toggled_set_trace
      (map (Tested (fn_id (group_shouldShow g)))
         (upto_first (fn_body (group_shouldShow g)) (reverse els))) s) as H0.
    assert (List.filter is_test (group_tests els g) = group_tests els g) as Hf.
    { apply filter_tested. }
    fold (group_tests els g) in H0. rewrite Hf in H0.
    set (s0 := set_trace _ s) in *.
    pose proof (toggled_toggleContainers (group_containers g)
      (if existsb (fn_body (group_shouldShow g)) els then "show" else "hide") s0) as H1.
    destruct (toggleContainers _ _ s0) as [s1 []]; simpl in *.
    + destruct (IH s1) as (ts & H2 & Hp).
      exists (group_tests els g ++ ts). split.
      * replace (group_tests els g ++ ts) with ((group_tests els g ++ []) ++ ts)
          by (by rewrite app_nil_r).
        eapply toggled_trans; [|done]. by eapply toggled_trans.
      * by apply prefix_app.
    + exists (group_tests els g). split.
      * rewrite <- (app_nil_r (group_tests els g)). by eapply toggled_trans.
      * by apply prefix_app_r.
Qed.

(** ** The groups *)

Lemma group_lookup_elem key gs g : group_lookup key gs = Some g → (key, g) ∈ gs.
Proof.
  induction gs as [|[k g0] gs IH]; simpl; [done|].
  destruct (String.eqb_spec k key) as [->|Hne].
  - intros [= ->]. apply list_elem_of_here.
  - intros H. by apply list_elem_of_further, IH.
Qed.

Lemma group_lookup_None key gs : group_lookup key gs = None → key ∉ gs.*1.
Proof.
  induction gs as [|[k g0] gs IH]; simpl; [intros _; apply not_elem_of_nil|].
  destruct (String.eqb_spec k key) as [->|Hne]; [done|].
  intros H. rewrite elem_of_cons. intros [Heq|Hin]; [done|by apply IH].
Qed.

Lemma group_lookup_NoDup key gs g :
  NoDup gs.*1 → (key, g) ∈ gs → group_lookup key gs = Some g.
Proof.
  induction gs as [|[k g0] gs IH]; simpl.
  - intros _ H. by apply elem_of_nil in H.
  - rewrite NoDup_cons. intros [Hk Hnd]. rewrite elem_of_cons.
    destruct (String.eqb_spec k key) as [->|Hne].
    + intros [[= ->]|Hin]; [done|].
      destruct Hk. by apply (list_elem_of_fmap_2 fst) in Hin.
    + intros [[= -> ->]|Hin]; [done|by apply IH].
Qed.

Lemma group_push_keys key c gs : (group_push key c gs).*1 = gs.*1.
Proof.
  induction gs as [|[k g0] gs IH]; csimpl; [done|].
  destruct (String.eqb k key); csimpl; by rewrite ?IH.
Qed.

Lemma elem_of_group_push key c gs k g' :
  (k, g') ∈ group_push key c gs →
  (k, g') ∈ gs
  ∨ (k = key ∧ ∃ g, group_lookup key gs = Some g
                 ∧ g' = {| group_shouldShow := group_shouldShow g;
                           group_containers := group_containers g ++ [c] |}).
Proof.
  induction gs as [|[k0 g0] gs IH]; simpl; [by left|].
  destruct (String.eqb_spec k0 key) as [->|Hne]; rewrite elem_of_cons.
  - intros [[= -> ->]|Hin].
    + right. split; [done|]. by exists g0.
    + left. by apply list_elem_of_further.
  - intros [[= -> ->]|Hin].
    + left. apply list_elem_of_here.
    + destruct (IH Hin) as [H|H]; [left; by apply list_elem_of_further|by right].
Qed.

Lemma group_lookup_push key c gs k :
  group_lookup k (group_push key c gs) =
    if String.eqb k key
    then (fun g => {| group_shouldShow := group_shouldShow g;
                      group_containers := group_containers g ++ [c] |})
           <$> group_lookup key gs
    else group_lookup k gs.
Proof.
  induction gs as [|[k0 g0] gs IH]; simpl; [by destruct (String.eqb k key)|].
  destruct (String.eqb_spec k0 key) as [->|Hne]; simpl.
  - rewrite (String.eqb_sym key k). by destruct (String.eqb k key).
  - destruct (String.eqb_spec k0 k) as [->|Hne'].
    + by rewrite (proj2 (String.eqb_neq k key)).
    + rewrite IH. by destruct (String.eqb k key).
Qed.

Lemma group_lookup_snoc key g gs k :
  group_lookup k (gs ++ [(key, g)]) =
    match group_lookup k gs with
    | Some g' => Some g'
    | None => if String.eqb key k then Some g else None
    end.
Proof.
  induction gs as [|[k0 g0] gs IH]; simpl; [done|].
  by destruct (String.eqb k0 k).
Qed.

(** ** Registration *)

Lemma lookup_snoc {A} (l : list A) x : (l ++ [x]) !! length l = Some x.
Proof. by rewrite list_lookup_middle. Qed.

Lemma insert_snoc {A} (l : list A) x y : <[length l := y]> (l ++ [x]) = l ++ [y].
Proof. rewrite insert_app_r_alt by done. by rewrite Nat.sub_diag. Qed.

Lemma coerce_result v s :
  ∃ f n, coerceShowOnToPredicate v s = (set_closures n s, Normal f)
         ∧ closures s ≤ n
         ∧ ∀ s0, closures s0 = closures s →
                 coerceShowOnToPredicate v s0 = (set_closures n s0, Normal f).
Proof.
  destruct v as [| |b|sel|f|k repr]; simpl; unfold new_closure, ret;
    try (eexists _, _; split; [done|]; split; [lia|]; by intros s0 ->).
  exists f, (closures s). split; [by destruct s|]. split; [done|].
  intros s0 <-. by destruct s0.
Qed.

(** What [new Container( settings )] does, case by case. *)
Lemma Container_new_spec st s :
  match st with
  | None =>
      Container_new None s = (set_objects (objects s ++ [prototype]) s, Throw TypeError)
  | Some st =>
      let v := settings_showOn st in
      let this := length (objects s) in
      match generateKeyForShowOnValue v with
      | Throw e =>
          Container_new (Some st) s =
            (set_objects (objects s ++ [set_showOn v prototype]) s, Throw e)
      | Normal key =>
          match group_lookup key (showGroups s) with
          | Some g =>
              Container_new (Some st) s =
                ({| showGroups := group_push key this (showGroups s);
                    objects := objects s ++
                      [set_shouldShow (group_shouldShow g) (set_showOn v prototype)];
                    arrays := arrays s; closures := closures s; trace := trace s |},
                 Normal this)
          | None =>
              ∃ f n, closures s ≤ n ∧
                coerceShowOnToPredicate v s = (set_closures n s, Normal f) ∧
                Container_new (Some st) s =
                  ({| showGroups := showGroups s ++
                        [(key, {| group_shouldShow := f; group_containers := [this] |})];
                      objects := objects s ++ [set_shouldShow f (set_showOn v prototype)];
                      arrays := arrays s; closures := n; trace := trace s |},
                   Normal this)
          end
      end
  end.
Proof.
  destruct st as [[v]|]; simpl.
  - unfold Container_new, addToShowGroup.
    unfold bind, gets, modify, put_object, get_object, lift, ret.
    simpl. rewrite insert_snoc, lookup_snoc. simpl.
    destruct (generateKeyForShowOnValue v) as [key|e] eqn:Hk; simpl; [|done].
    destruct (group_lookup key (showGroups s)) as [g|] eqn:Hg; simpl.
    + by rewrite insert_snoc.
    + destruct (coerce_result v s) as (f & n & Hc & Hn & Hc').
      exists f, n. split; [done|]. split; [done|].
      rewrite Hc' by done. simpl. by rewrite insert_snoc.
  - unfold Container_new, bind, gets, modify, throw. done.
Qed.

(** ** The registry invariant *)

Lemma wf_init : wf init.
Proof.
  split; simpl.
  - constructor.
  - intros k g c H. by apply elem_of_nil in H.
  - intros k g H. by apply elem_of_nil in H.
  - intros k g H. by apply elem_of_nil in H.
Qed.

Lemma wf_toggled ts s s' : toggled ts s s' → wf s → wf s'.
Proof.
  intros [G A C L O T] [K M S N]. split; rewrite G; try done.
  intros k g c Hin Hc.
  destruct (M k g c Hin Hc) as (o & Ho & Hk & Hs).
  destruct (O c o Ho) as (o' & Ho' & (S1 & S2 & S3) & _).
  exists o'. split; [done|]. by rewrite S1, S2.
Qed.

Lemma wf_same s s' :
  showGroups s' = showGroups s → objects s' = objects s → wf s → wf s'.
Proof. intros G O [K M S N]. split; rewrite G, ?O; done. Qed.

Lemma wf_alloc o s : wf s → wf (set_objects (objects s ++ [o]) s).
Proof.
  intros [K M S N]. split; simpl; try done.
  intros k g c Hin Hc.
  destruct (M k g c Hin Hc) as (o' & Ho & Hk & Hs).
  exists o'. split; [|done].
  rewrite lookup_app_l; [done|by eapply lookup_lt_Some].
Qed.

Lemma wf_member_lt s k g c :
  wf s → (k, g) ∈ showGroups s → c ∈ group_containers g → c < length (objects s).
Proof.
  intros [K M S N] Hin Hc.
  destruct (M k g c Hin Hc) as (o & Ho & _). by eapply lookup_lt_Some.
Qed.

Lemma wf_Container_new st s : wf s → wf (Container_new st s).1.
Proof.
  intros Hwf. pose proof (Container_new_spec st s) as H.
  destruct st as [[v]|]; simpl in H; [|rewrite H; by apply wf_alloc].
  destruct (generateKeyForShowOnValue v) as [key|e] eqn:Hk;
    [|rewrite H; by apply wf_alloc].
  pose proof Hwf as [K M S N].
  destruct (group_lookup key (showGroups s)) as [g|] eqn:Hg.
  - rewrite H. split; simpl.
    + by rewrite group_push_keys.
    + intros k g' c Hin Hc.
      apply elem_of_group_push in Hin as [Hin|(-> & g0 & Hg0 & ->)].
      * destruct (M k g' c Hin Hc) as (o' & Ho & Hk' & Hs).
        exists o'. split; [|done].
        rewrite lookup_app_l; [done|by eapply lookup_lt_Some].
      * rewrite Hg in Hg0. injection Hg0 as <-. simpl in Hc.
        apply group_lookup_elem in Hg.
        apply elem_of_app in Hc as [Hc|Hc].
        -- destruct (M key g c Hg Hc) as (o' & Ho & Hk' & Hs).
           exists o'. split; [|done].
           rewrite lookup_app_l; [done|by eapply lookup_lt_Some].
        -- apply list_elem_of_singleton in Hc as ->.
           eexists. split; [apply lookup_snoc|]. simpl. done.
    + intros k g' Hin.
      apply elem_of_group_push in Hin as [Hin|(-> & g0 & Hg0 & ->)]; [by eapply S|].
      simpl. apply group_lookup_elem in Hg0.
      apply StronglySorted_app_2; [|by eapply S|repeat constructor].
      intros x1 x2 Hx1 ->%list_elem_of_singleton. by eapply wf_member_lt.
    + intros k g' Hin.
      apply elem_of_group_push in Hin as [Hin|(-> & g0 & Hg0 & ->)]; [by eapply N|].
      simpl. by destruct (group_containers g0).
  - destruct H as (f & n & Hn & Hco & H). rewrite H. split; simpl.
    + rewrite fmap_app. simpl. apply NoDup_app. split; [done|]. split.
      * intros x Hx ->%list_elem_of_singleton. by apply group_lookup_None in Hg.
      * apply NoDup_singleton.
    + intros k g' c Hin Hc. apply elem_of_app in Hin as [Hin|Hin].
      * destruct (M k g' c Hin Hc) as (o' & Ho & Hk' & Hs).
        exists o'. split; [|done].
        rewrite lookup_app_l; [done|by eapply lookup_lt_Some].
      * apply list_elem_of_singleton in Hin. injection Hin as -> ->. simpl in Hc.
        apply list_elem_of_singleton in Hc as ->.
        eexists. split; [apply lookup_snoc|]. simpl. done.
    + intros k g' Hin. apply elem_of_app in Hin as [Hin|Hin]; [by eapply S|].
      apply list_elem_of_singleton in Hin. injection Hin as -> ->. simpl.
      repeat constructor.
    + intros k g' Hin. apply elem_of_app in Hin as [Hin|Hin]; [by eapply N|].
      apply list_elem_of_singleton in Hin. by injection Hin as -> ->.
Qed.

Lemma push_null_spec a s :
  push_null a s =
    (set_arrays (match arrays s !! a with
                 | Some xs => <[a := xs ++ [None]]> (arrays s)
                 | None => arrays s
                 end) s,
     Normal (test_sequence (ArrayRef a) s)).
Proof.
  unfold push_null, test_sequence. simpl.
  destruct (arrays s !! a); [done|]. by destruct s.
Qed.

(** A call of [showContainersForElements] is the push followed by the pass. *)
Lemma showContainersForElements_unfold arg s :
  showContainersForElements arg s =
    for_each_group (showGroups s) (test_sequence arg s)
      (match arg with
       | ArrayRef a =>
           match arrays s !! a with
           | Some xs => set_arrays (<[a := xs ++ [None]]> (arrays s)) s
           | None => s
           end
       | NotArray => s
       end).
Proof.
  unfold showContainersForElements, bind, gets, ret.
  destruct arg as [a|]; [|done].
  rewrite push_null_spec. simpl. destruct (arrays s !! a); [done|]. by destruct s.
Qed.

Lemma wf_showContainersForElements arg s :
  wf s → wf (showContainersForElements arg s).1.
Proof.
  intros Hwf. rewrite showContainersForElements_unfold.
  match goal with |- wf (for_each_group ?gs ?els ?s0).1 =>
    destruct (toggled_for_each_group els gs s0) as (ts & Ht & _);
    apply (wf_toggled _ _ _ Ht) end.
  destruct arg as [a|]; [|done]. destruct (arrays s !! a); [|done].
  by apply (wf_same s).
Qed.

Lemma wf_step k s : wf s → wf (step k s).
Proof.
  intros Hwf. destruct k as [st|c|c|c|arg|xs]; simpl.
  - by apply wf_Container_new.
  - by apply (wf_toggled _ _ _ (toggled_render c s)).
  - by apply (wf_toggled _ _ _ (toggled_show c s)).
  - by apply (wf_toggled _ _ _ (toggled_hide c s)).
  - by apply wf_showContainersForElements.
  - by apply (wf_same s).
Qed.

Lemma wf_run ks s : wf s → wf (run ks s).
Proof.
  revert s. induction ks as [|k ks IH]; intros s Hwf; [done|].
  apply IH, wf_step, Hwf.
Qed.

Lemma wf_reachable s : reachable s → wf s.
Proof. intros [ks ->]. apply wf_run, wf_init. Qed.

Lemma wf_lookup s k g :
  wf s → (k, g) ∈ showGroups s ↔ group_lookup k (showGroups s) = Some g.
Proof.
  intros Hwf. split; [|apply group_lookup_elem].
  apply group_lookup_NoDup, Hwf.
Qed.

(** A container sits in one group only. *)
Lemma wf_one_group s k1 g1 k2 g2 c :
  wf s → (k1, g1) ∈ showGroups s → (k2, g2) ∈ showGroups s →
  c ∈ group_containers g1 → c ∈ group_containers g2 →
  k1 = k2 ∧ g1 = g2.
Proof.
  intros Hwf H1 H2 Hc1 Hc2.
  destruct (wf_members s Hwf k1 g1 c H1 Hc1) as (o1 & Ho1 & Hk1 & _).
  destruct (wf_members s Hwf k2 g2 c H2 Hc2) as (o2 & Ho2 & Hk2 & _).
  assert (k1 = k2) as <- by congruence. split; [done|].
  apply (wf_lookup s) in H1, H2; congruence.
Qed.

(** ** The store after a pass *)

Lemma set_shown_idemp b o : set_shown b (set_shown b o) = set_shown b o.
Proof. done. Qed.




(** A call on a registry whose containers are all rendered returns, and the
    state it leaves is the state it began with, the [null] pushed, the
    groups applied in order and the trace extended by each group's tests
    and method calls. *)
Lemma showContainersForElements_spec arg s :
  all_rendered s →
  showContainersForElements arg s =
    (let els := test_sequence arg s in
     {| showGroups := showGroups s;
        objects := apply_groups (showGroups s) els (objects s);
        arrays := match arg with
                  | ArrayRef a =>
                      match arrays s !! a with
                      | Some xs => <[a := xs ++ [None]]> (arrays s)
                      | None => arrays s
                      end
                  | NotArray => arrays s
                  end;
        closures := closures s;
        trace := trace s ++
          flat_map (fun kg => group_tests els kg.2 ++ group_invokes els kg.2)
                   (showGroups s) |},
     Normal tt).
Proof.
  intros Hr. rewrite showContainersForElements_unfold.
  rewrite for_each_group_spec.
  - destruct arg as [a|]; [|done]. by destruct (arrays s !! a).
  - intros k g c Hin Hc.
    assert (rendered (objects s) c) as H by (apply Hr; by exists k, g).
    destruct arg as [a|]; [|done]. by destruct (arrays s !! a).
Qed.




(** ** Counting the tests *)

Lemma events_since_app s s' evs : trace s' = trace s ++ evs → events_since s s' = evs.
Proof. intros H. unfold events_since. by rewrite H, drop_app_length. Qed.

Lemma group_tests_length els g : length (group_tests els g) ≤ length els.
Proof.
  unfold group_tests. rewrite length_map.
  etrans; [apply upto_first_length|]. by rewrite length_reverse.
Qed.

Lemma all_tests_length els gs :
  length (flat_map (fun kg : string * group => group_tests els kg.2) gs) ≤ length gs * length els.
Proof.
  induction gs as [|[k g] gs IH]; simpl; [done|].
  rewrite length_app. pose proof (group_tests_length els g). lia.
Qed.

Lemma member_count_ge gs :
  (∀ k g, (k, g) ∈ gs → group_containers g ≠ []) → length gs ≤ member_count gs.
Proof.
  unfold member_count. induction gs as [|[k g] gs IH]; intros Hne; simpl; [done|].
  assert (group_containers g ≠ []) as Hg by (apply (Hne k), list_elem_of_here).
  assert (length gs ≤ sum_list (map (fun kg : string * group => length (group_containers kg.2)) gs))
    as IH' by (apply IH; intros k' g' Hin; apply (Hne k'); by apply list_elem_of_further).
  destruct (group_containers g); [done|]. simpl. lia.
Qed.

(** The tests of a call, however it completes. *)
Lemma showContainersForElements_tests arg s :
  List.filter is_test (events_since s (showContainersForElements arg s).1)
    `prefix_of` flat_map (fun kg : string * group => group_tests (test_sequence arg s) kg.2) (showGroups s).
Proof.
  rewrite showContainersForElements_unfold.
  match goal with |- context [for_each_group ?gs ?els ?s0] =>
    destruct (toggled_for_each_group els gs s0) as (ts & [_ _ _ _ _ (evs & Ht & Hf)] & Hp);
    assert (trace s0 = trace s) as Hs
      by (destruct arg as [a|]; [|done]; by destruct (arrays s !! a)) end.
  rewrite Hs in Ht. by rewrite (events_since_app _ _ _ Ht), Hf.
Qed.

(** C6.  With [K] groups and [N] containers in them, a call of
    [showContainersForElements], however it completes, tests group after
    group, each group by one walk over the test sequence from its last
    element that stops behind the first element the group's predicate
    accepts; so it performs at most [K * (|elements| + 1)] tests.  [K] never
    exceeds [N], and the count stays below [N * (|elements| + 1)] whenever
    some group has more than one member. *)
Theorem evaluation_count ks arg :
  let s := run ks init in
  let s' := (showContainersForElements arg s).1 in
  let els := test_sequence arg s in
  let tests := List.filter is_test (events_since s s') in
  let K := length (showGroups s) in
  let N := member_count (showGroups s) in
  length els = S (length (given_elements arg s))
  ∧ tests `prefix_of` flat_map (fun kg : string * group => group_tests els kg.2) (showGroups s)
  ∧ (∀ k g, (k, g) ∈ showGroups s →
       let walk := upto_first (fn_body (group_shouldShow g)) (reverse els) in
       group_tests els g = map (Tested (fn_id (group_shouldShow g))) walk
       ∧ length walk ≤ length els
       ∧ ((decision els g = false ∧ walk = reverse els)
          ∨ ∃ l1 x l2, reverse els = l1 ++ x :: l2 ∧ walk = l1 ++ [x]
                       ∧ fn_body (group_shouldShow g) x = true
                       ∧ existsb (fn_body (group_shouldShow g)) l1 = false))
  ∧ length tests ≤ K * (length (given_elements arg s) + 1)
  ∧ K ≤ N
  ∧ (K < N → length tests < N * (length (given_elements arg s) + 1)).
Proof.
  intros s s' els tests K N.
  assert (length els = S (length (given_elements arg s))) as Hn.
  { unfold els, test_sequence. rewrite length_app. simpl. lia. }
  pose proof (showContainersForElements_tests arg s) as Hp.
  fold s' els tests in Hp.
  assert (length tests ≤ K * length els) as Hle.
  { etrans; [by apply prefix_length|]. apply all_tests_length. }
  assert (K ≤ N) as HKN.
  { apply member_count_ge. intros k g Hin.
    by eapply wf_nonempty; [apply wf_run, wf_init|]. }
  split; [done|]. split; [done|]. split; [|split; [lia|split; [done|nia]]].
  intros k g Hin walk. split; [done|]. split.
  - unfold walk. etrans; [apply upto_first_length|]. by rewrite length_reverse.
  - unfold walk, decision.
    destruct (upto_first_stops (fn_body (group_shouldShow g)) (reverse els))
      as [[H1 H2]|H]; [left|by right].
    by rewrite <- existsb_reverse.
Qed.

(** ** The caller's array *)

Lemma showContainersForElements_arrays a xs s :
  arrays s !! a = Some xs →
  arrays (showContainersForElements (ArrayRef a) s).1 = <[a := xs ++ [None]]> (arrays s).
Proof.
  intros Ha. rewrite showContainersForElements_unfold, Ha.
  match goal with |- context [for_each_group ?gs ?els ?s0] =>
    destruct (toggled_for_each_group els gs s0) as (ts & [_ -> _ _ _ _] & _) end.
  done.
Qed.

(** C9.  A call of [showContainersForElements] with an array writes to the
    caller's array: whatever else the call does and however it completes,
    the array holds one more trailing [null] afterwards, the other arrays
    are as they were, and [n] calls with the same array leave [n] more. *)
Theorem showContainersForElements_pushes_null s a xs :
  arrays s !! a = Some xs →
  arrays (showContainersForElements (ArrayRef a) s).1 !! a = Some (xs ++ [None])
  ∧ (∀ a', a' ≠ a →
       arrays (showContainersForElements (ArrayRef a) s).1 !! a' = arrays s !! a')
  ∧ ∀ n, arrays (run (replicate n (ShowContainersForElements (ArrayRef a))) s) !! a
         = Some (xs ++ replicate n None).
Proof.
  intros Ha. split; [|split].
  - rewrite (showContainersForElements_arrays a xs) by done.
    apply list_lookup_insert_eq. by eapply lookup_lt_Some.
  - intros a' Hne. rewrite (showContainersForElements_arrays a xs) by done.
    by apply list_lookup_insert_ne.
  - intros n. revert s xs Ha. induction n as [|n IH]; intros s xs Ha; simpl.
    + by rewrite app_nil_r.
    + rewrite (IH _ (xs ++ [None])).
      * by rewrite <- app_assoc.
      * rewrite (showContainersForElements_arrays a xs) by done.
        apply list_lookup_insert_eq. by eapply lookup_lt_Some.
Qed.

(** ** The order of the method calls *)

Lemma filter_invoked (f : cid → string) l :
  List.filter is_invoke (map (fun c => Invoked c (f c)) l) = map (fun c => Invoked c (f c)) l.
Proof. induction l as [|x l IH]; simpl; [done|by rewrite IH]. Qed.

Lemma filter_invoke_tested f l : List.filter is_invoke (map (Tested f) l) = [].
Proof. by induction l. Qed.

Lemma filter_invoke_groups els gs :
  List.filter is_invoke
    (flat_map (fun kg : string * group => group_tests els kg.2 ++ group_invokes els kg.2) gs)
  = flat_map (fun kg : string * group => group_invokes els kg.2) gs.
Proof.
  induction gs as [|[k g] gs IH]; simpl; [done|].
  rewrite !List.filter_app, IH. unfold group_tests, group_invokes.
  by rewrite filter_invoke_tested, (filter_invoked (fun _ => _)).
Qed.

(** C10.  [toggleContainers] walks the array it is given from its last
    index down to index 0, so the members of a group get their [show] or
    [hide] calls in the reverse of the order of the group's array; a call
    of [showContainersForElements] makes these calls group after group; and
    the array of a group lists its members in the order they were created
    and registered, so the member registered last is called first. *)
Theorem toggleContainers_reverse_order s :
  reachable s → all_rendered s →
  (∀ cs b, (∀ c, c ∈ cs → rendered (objects s) c) →
     ∃ s', toggleContainers cs (action_of b) s = (s', Normal tt)
       ∧ events_since s s' = map (fun c => Invoked c (action_of b)) (reverse cs))
  ∧ (∀ arg,
       List.filter is_invoke (events_since s (showContainersForElements arg s).1)
       = flat_map (fun kg : string * group =>
           map (fun c => Invoked c (action_of (decision (test_sequence arg s) kg.2)))
               (reverse (group_containers kg.2))) (showGroups s))
  ∧ (∀ k g, (k, g) ∈ showGroups s → StronglySorted lt (group_containers g)).
Proof.
  intros Hwf%wf_reachable Hr. split; [|split].
  - intros cs b Hcs. rewrite toggleContainers_spec by done.
    eexists. split; [done|]. by apply events_since_app.
  - intros arg. rewrite showContainersForElements_spec by done. simpl.
    erewrite events_since_app by done. apply filter_invoke_groups.
  - apply Hwf.
Qed.

(** ** Sharing *)

(** Each evaluation of [coerceShowOnToPredicate] on a value that is not a
    function makes a function object of its own: two coercions of one
    value are two instances that answer alike. *)
Lemma coerce_fresh_instance v s s1 s2 f1 f2 :
  jQuery_type v ≠ "function" →
  coerceShowOnToPredicate v s = (s1, Normal f1) →
  coerceShowOnToPredicate v s1 = (s2, Normal f2) →
  fn_id f1 ≠ fn_id f2 ∧ fn_body f1 = fn_body f2.
Proof.
  destruct v as [| |b|sel|f|k repr]; simpl; unfold new_closure; intros Hty H1 H2;
    try done; simplify_eq; simpl; (split; [|done]); intros [=]; lia.
Qed.

(** C2.  After any calls of the module, two registered containers whose
    [showOn] values have the same key hold the same function object as
    [shouldShow], the one stored in the group under that key, of which both
    are members; every member of a group has the group's key and the
    group's function object; a container sits in one group only; and a key
    has one group. *)
Theorem shared_predicate ks :
  let s := run ks init in
  (∀ c1 c2 o1 o2 key,
     registered s c1 → registered s c2 →
     objects s !! c1 = Some o1 → objects s !! c2 = Some o2 →
     generateKeyForShowOnValue (showOn o1) = Normal key →
     generateKeyForShowOnValue (showOn o2) = Normal key →
     shouldShow o1 = shouldShow o2
     ∧ ∃ g, group_lookup key (showGroups s) = Some g
            ∧ c1 ∈ group_containers g ∧ c2 ∈ group_containers g
            ∧ shouldShow o1 = group_shouldShow g)
  ∧ (∀ k g c,
       (k, g) ∈ showGroups s → c ∈ group_containers g →
       ∃ o, objects s !! c = Some o
            ∧ generateKeyForShowOnValue (showOn o) = Normal k
            ∧ shouldShow o = group_shouldShow g)
  ∧ (∀ i j k1 g1 k2 g2 c,
       showGroups s !! i = Some (k1, g1) → showGroups s !! j = Some (k2, g2) →
       c ∈ group_containers g1 → c ∈ group_containers g2 → i = j)
  ∧ NoDup (showGroups s).*1.
Proof.
  intros s. assert (wf s) as Hwf by apply wf_run, wf_init.
  split; [|split; [apply Hwf|split; [|apply Hwf]]].
  - intros c1 c2 o1 o2 key (k1 & g1 & Hin1 & Hc1) (k2 & g2 & Hin2 & Hc2) Ho1 Ho2 Hk1 Hk2.
    destruct (wf_members s Hwf k1 g1 c1 Hin1 Hc1) as (o1' & Ho1' & Hk1' & Hs1).
    destruct (wf_members s Hwf k2 g2 c2 Hin2 Hc2) as (o2' & Ho2' & Hk2' & Hs2).
    assert (o1' = o1) as -> by congruence. assert (o2' = o2) as -> by congruence.
    assert (k1 = key) as -> by congruence. assert (k2 = key) as -> by congruence.
    apply (wf_lookup s) in Hin1, Hin2; [|done..].
    assert (g2 = g1) as -> by congruence.
    split; [congruence|]. by exists g1.
  - intros i j k1 g1 k2 g2 c Hi Hj Hc1 Hc2.
    destruct (wf_one_group s k1 g1 k2 g2 c Hwf) as [<- <-];
      [by eapply list_elem_of_lookup_2..|done|done|].
    eapply NoDup_lookup; [apply (wf_keys s Hwf)| |].
    + by rewrite list_lookup_fmap, Hi.
    + by rewrite list_lookup_fmap, Hj.
Qed.

(** ** The kinds of conditions *)

(** C5.  [coerceShowOnToPredicate] returns a function as it is; for a
    boolean a predicate that answers that boolean for every argument; for a
    string a predicate that answers [false] for [null] and, for an element,
    whether the element matches the string as a selector; for [undefined]
    a predicate that always answers [true]; and for a value of any other
    kind a predicate that always answers [false]. *)
Theorem coerceShowOnToPredicate_kinds s :
  (∀ f, coerceShowOnToPredicate (VFunction f) s = (s, Normal f))
  ∧ (∀ b, ∃ p, (coerceShowOnToPredicate (VBool b) s).2 = Normal p
               ∧ ∀ el, fn_body p el = b)
  ∧ (∀ sel, ∃ p, (coerceShowOnToPredicate (VString sel) s).2 = Normal p
                 ∧ fn_body p None = false
                 ∧ ∀ e, fn_body p (Some e) = jq_is e sel)
  ∧ (∃ p, (coerceShowOnToPredicate VUndefined s).2 = Normal p
          ∧ ∀ el, fn_body p el = true)
  ∧ (∀ v, jQuery_type v ∉ ["function"; "boolean"; "string"; "undefined"] →
          ∃ p, (coerceShowOnToPredicate v s).2 = Normal p
               ∧ ∀ el, fn_body p el = false).
Proof.
  split; [done|]. split; [by eexists|]. split; [by eexists|]. split; [by eexists|].
  intros v Hv. pose proof (coerce_dispatch v) as Hd.
  destruct v as [| |b|sel|f|k repr]; simpl in *;
    try (by eexists); destruct Hv; rewrite !elem_of_cons; auto.
Qed.

(** ** Values without a [toString] *)

(** C3.  The keys of [true] and of the string ["true"] differ, but no key
    is computed for [undefined]: reading [toString] of it throws. *)
Theorem key_of_undefined_throws :
  generateKeyForShowOnValue (VBool true) = Normal "boolean:true"
  ∧ generateKeyForShowOnValue (VString "true") = Normal "string:true"
  ∧ generateKeyForShowOnValue VUndefined = Throw TypeError.
Proof. done. Qed.

(** C4.  Constructing a container whose [showOn] is [undefined] or [null]
    throws in [addToShowGroup], before any group is touched, although
    [coerceShowOnToPredicate] has a case for both; a [showOn] of any other
    kind is registered. *)
Theorem registration_throws_on_undefined s :
  (Container_new (Some (Settings VUndefined)) s).2 = Throw TypeError
  ∧ (Container_new (Some (Settings VNull)) s).2 = Throw TypeError
  ∧ showGroups (Container_new (Some (Settings VUndefined)) s).1 = showGroups s
  ∧ showGroups (Container_new (Some (Settings VNull)) s).1 = showGroups s
  ∧ ∀ v, (∃ c, (Container_new (Some (Settings v)) s).2 = Normal c)
         ↔ v ≠ VUndefined ∧ v ≠ VNull.
Proof.
  split; [by rewrite (Container_new_spec (Some (Settings VUndefined)) s)|].
  split; [by rewrite (Container_new_spec (Some (Settings VNull)) s)|].
  split; [by rewrite (Container_new_spec (Some (Settings VUndefined)) s)|].
  split; [by rewrite (Container_new_spec (Some (Settings VNull)) s)|].
  intros v. pose proof (Container_new_spec (Some (Settings v)) s) as H.
  pose proof (key_throws v) as Hk. simpl in H.
  destruct (generateKeyForShowOnValue v) as [key|e] eqn:Hkey.
  - split; [intros _; split; intros ->; discriminate|intros _].
    destruct (group_lookup key (showGroups s)).
    + rewrite H. by eexists.
    + destruct H as (f & n & _ & _ & ->). by eexists.
  - rewrite H. simpl. split; [by intros [c Hc]|].
    intros [H1 H2]. destruct Hk as [Hk _].
    destruct Hk as [->| ->]; [by exists e|done..].
Qed.

(** ** Construction *)

Lemma step_visible k s c o :
  match k with New _ | Render _ | NewArray _ => True | _ => False end →
  objects s !! c = Some o →
  ∃ o', objects (step k s) !! c = Some o' ∧ visible o' = visible o.
Proof.
  intros Hk Ho. destruct k as [st|c'|c'|c'|arg|xs]; try done; simpl.
  - assert (∀ o1, (objects s ++ [o1]) !! c = Some o) as Hl
      by (intros o1; rewrite lookup_app_l; [done|by eapply lookup_lt_Some]).
    pose proof (Container_new_spec st s) as H.
    destruct st as [[v]|]; simpl in H; [|rewrite H; simpl; eauto].
    destruct (generateKeyForShowOnValue v) as [key|e]; [|rewrite H; simpl; eauto].
    destruct (group_lookup key (showGroups s)) as [g|].
    + rewrite H. simpl. eauto.
    + destruct H as (f & n & _ & _ & ->). simpl. eauto.
  - unfold render, bind, get_object.
    destruct (objects s !! c') as [o1|] eqn:Ho1; simpl; [|eauto].
    destruct (decide (c' = c)) as [->|Hne].
    + rewrite list_lookup_insert_eq by (by eapply lookup_lt_Some).
      eexists. split; [done|]. simpl. congruence.
    + rewrite list_lookup_insert_ne by done. eauto.
  - eauto.
Qed.

(** C8.  The class declares [visible: true] and [showOn: true], and a
    container that the constructor returns is visible and is changed in
    that by [show] and [hide] only; but its [showOn] is the one of the
    settings, whatever the class declares, and for settings without a
    [showOn] the constructor throws instead of falling back to [true]. *)
Theorem construction_ignores_default s :
  visible prototype = true
  ∧ showOn prototype = VBool true
  ∧ (∀ v c s', Container_new (Some (Settings v)) s = (s', Normal c) →
       ∃ o, objects s' !! c = Some o ∧ visible o = true ∧ element o = None
            ∧ showOn o = v)
  ∧ Container_new (Some (Settings VUndefined)) s
    = (set_objects (objects s ++ [set_showOn VUndefined prototype]) s, Throw TypeError)
  ∧ Container_new None s
    = (set_objects (objects s ++ [prototype]) s, Throw TypeError)
  ∧ (∀ k c o,
       match k with New _ | Render _ | NewArray _ => True | _ => False end →
       objects s !! c = Some o →
       ∃ o', objects (step k s) !! c = Some o' ∧ visible o' = visible o).
Proof.
  split; [done|]. split; [done|]. split; [|split; [|split]].
  - intros v c s' H. pose proof (Container_new_spec (Some (Settings v)) s) as H0.
    simpl in H0. destruct (generateKeyForShowOnValue v) as [key|e]; [|congruence].
    destruct (group_lookup key (showGroups s)) as [g|].
    + rewrite H0 in H. injection H as <- <-. simpl. rewrite lookup_snoc. by eexists.
    + destruct H0 as (f & n & _ & _ & H0). rewrite H0 in H. injection H as <- <-.
      simpl. rewrite lookup_snoc. by eexists.
  - apply (Container_new_spec (Some (Settings VUndefined)) s).
  - apply (Container_new_spec None s).
  - intros k c o. apply step_visible.
Qed.

(** ** Leaving the registry *)

Lemma all_renderedb_correct s : all_renderedb s = true → all_rendered s.
Proof.
  unfold all_renderedb. rewrite forallb_forall.
  intros H c (k & g & Hin & Hc).
  apply list_elem_of_In, H in Hin. simpl in Hin.
  rewrite forallb_forall in Hin. apply list_elem_of_In, Hin in Hc.
  destruct (objects s !! c) as [o|] eqn:Ho; [|done].
  apply bool_decide_eq_true in Hc as [d Hd]. by exists o, d.
Qed.






(** ** Further properties *)

(** Keys keep the kinds apart: two values with a key have the same key
    exactly when [jQuery.type] and [toString] agree on them. *)
Theorem key_separates_kinds v1 v2 k1 k2 :
  generateKeyForShowOnValue v1 = Normal k1 →
  generateKeyForShowOnValue v2 = Normal k2 →
  k1 = k2 ↔ jQuery_type v1 = jQuery_type v2 ∧ toString v1 = toString v2.
Proof.
  unfold generateKeyForShowOnValue. intros H1 H2.
  destruct (toString v1) as [s1|] eqn:E1; [|done].
  destruct (toString v2) as [s2|] eqn:E2; [|done].
  injection H1 as <-. injection H2 as <-. split.
  - destruct v1 as [| |b1|x1|f1|[] r1], v2 as [| |b2|x2|f2|[] r2];
      simpl in *; try done; intros H; simplify_eq/=; done.
  - intros [-> [= ->]]. done.
Qed.






(** Functions are grouped by their text.  A container whose [showOn] is a
    function with the text of a function registered before it is given
    that earlier function as [shouldShow], whatever its own function
    answers. *)
Theorem functions_grouped_by_text s f1 f2 :
  fn_src f1 = fn_src f2 →
  group_lookup ("function:" +:+ fn_src f1) (showGroups s) = None →
  let s1 := (Container_new (Some (Settings (VFunction f1))) s).1 in
  let s2 := (Container_new (Some (Settings (VFunction f2))) s1).1 in
  ∃ o1 o2,
    objects s2 !! length (objects s) = Some o1
    ∧ objects s2 !! S (length (objects s)) = Some o2
    ∧ showOn o2 = VFunction f2
    ∧ shouldShow o1 = f1 ∧ shouldShow o2 = f1.
Proof.
  intros Hsrc Hg s1 s2.
  pose proof (Container_new_spec (Some (Settings (VFunction f1))) s) as H1.
  cbv zeta in H1. cbn [settings_showOn] in H1.
  rewrite key_function, Hg in H1. destruct H1 as (f & n & _ & Hc & H1).
  simpl in Hc. unfold ret in Hc. injection Hc as _ <-.
  assert (showGroups s1 = showGroups s ++
            [("function:" +:+ fn_src f1,
              {| group_shouldShow := f1; group_containers := [length (objects s)] |})])
    as Hg1 by (unfold s1; by rewrite H1).
  assert (objects s1 = objects s ++
            [set_shouldShow f1 (set_showOn (VFunction f1) prototype)])
    as Ho1 by (unfold s1; by rewrite H1).
  assert (length (objects s1) = S (length (objects s))) as Hl1
    by (rewrite Ho1, length_app; simpl; lia).
  pose proof (Container_new_spec (Some (Settings (VFunction f2))) s1) as H2.
  cbv zeta in H2. cbn [settings_showOn] in H2.
  rewrite key_function, <- Hsrc, Hg1, group_lookup_snoc, Hg, String.eqb_refl in H2.
  unfold s2. rewrite H2. cbn [fst objects group_shouldShow].
  eexists _, _. split; [|split].
  - rewrite lookup_app_l by lia. rewrite Ho1. apply lookup_snoc.
  - rewrite <- Hl1. apply lookup_snoc.
  - done.
Qed.

End Container.

(** * Scenarios

    Elements are given by their tag names and a selector is a tag name. *)

Definition is_tag (el : string) (selector : string) : bool := String.eqb el selector.

(** [function( el ) { return el === null; }] *)
Definition is_null : func (Elem := string) :=
  {| fn_id := FUser 0;
     fn_src := "function( el ) { return el === null; }";
     fn_body := fun el => match el with None => true | Some _ => false end |}.

(** Containers A and B, both with [showOn: true], both rendered. *)
Definition two_true : state :=
  run is_tag [New (Some {| settings_showOn := VBool true |});
              New (Some {| settings_showOn := VBool true |});
              Render 0; Render 1] init.

(** The group that [two_true] has. *)
Definition true_group : group (Elem := string) :=
  {| group_shouldShow := {| fn_id := FClosure 0; fn_src := src_boolean;
                            fn_body := fun _ => true |};
     group_containers := [0; 1] |}.

(** Four rendered containers in three groups, and an array with a [div]. *)
Definition mixed : state :=
  run is_tag [New (Some {| settings_showOn := VString "img" |});
              New (Some {| settings_showOn := VBool false |});
              New (Some {| settings_showOn := VFunction is_null |});
              New (Some {| settings_showOn := VFunction is_null |});
              Render 0; Render 1; Render 2; Render 3;
              NewArray [Some "div"]] init.

Example two_true_groups : showGroups two_true = [("boolean:true", true_group)].
Proof. reflexivity. Qed.

Example two_true_shown :
  visible <$> objects (showContainersForElements NotArray two_true).1 = [true; true].
Proof. reflexivity. Qed.

Example mixed_keys :
  (showGroups mixed).*1
  = ["string:img"; "boolean:false"; "function:function( el ) { return el === null; }"].
Proof. reflexivity. Qed.

Example mixed_shown :
  visible <$> objects (showContainersForElements (ArrayRef 0) mixed).1
  = [false; false; true; true].
Proof. reflexivity. Qed.

Example mixed_trace :
  events_since mixed (showContainersForElements (ArrayRef 0) mixed).1
  = [Tested (FClosure 0) None; Tested (FClosure 0) (Some "div"); Invoked 0 "hide";
     Tested (FClosure 1) None; Tested (FClosure 1) (Some "div"); Invoked 1 "hide";
     Tested (FUser 0) None; Invoked 3 "show"; Invoked 2 "show"].
Proof. reflexivity. Qed.

(** A container that was not rendered makes the call throw. *)
Example unrendered_throws :
  (showContainersForElements NotArray
     (run is_tag [New (Some {| settings_showOn := VBool false |})] init)).2
  = Throw TypeError.
Proof. reflexivity. Qed.


Lemma shared_predicate_witness :
  registered two_true 0 ∧ registered two_true 1
  ∧ ∃ o1 o2, objects two_true !! 0 = Some o1 ∧ objects two_true !! 1 = Some o2
      ∧ shouldShow o1 = shouldShow o2
      ∧ fn_id (shouldShow o1) = FClosure 0.
Proof.
  assert (registered two_true 0) as H0.
  { exists "boolean:true", true_group. split; apply list_elem_of_In; simpl; auto. }
  assert (registered two_true 1) as H1.
  { exists "boolean:true", true_group. split; apply list_elem_of_In; simpl; auto. }
  split; [exact H0|]. split; [exact H1|].
  destruct (shared_predicate is_tag
              [New (Some {| settings_showOn := VBool true |});
               New (Some {| settings_showOn := VBool true |});
               Render 0; Render 1]) as [Hshare _].
  eexists _, _. split; [reflexivity|]. split; [reflexivity|]. split; [|reflexivity].
  exact (proj1 (Hshare 0 1 _ _ "boolean:true" H0 H1 eq_refl eq_refl eq_refl eq_refl)).
Defined.

Lemma showContainersForElements_pushes_null_witness :
  arrays mixed !! 0 = Some [Some "div"]
  ∧ arrays (showContainersForElements (ArrayRef 0) mixed).1 !! 0 = Some [Some "div"; None]
  ∧ arrays (run is_tag (replicate 3 (ShowContainersForElements (ArrayRef 0))) mixed) !! 0
    = Some [Some "div"; None; None; None].
Proof.
  assert (arrays mixed !! 0 = Some [Some "div"]) as H by reflexivity.
  destruct (showContainersForElements_pushes_null is_tag mixed 0 [Some "div"] H)
    as (H1 & _ & H3).
  split; [exact H|]. split; [exact H1|exact (H3 3)].
Defined.

Lemma toggleContainers_reverse_order_witness :
  reachable is_tag mixed ∧ all_rendered mixed
  ∧ List.filter is_invoke
      (events_since mixed (showContainersForElements (ArrayRef 0) mixed).1)
    = [Invoked 0 "hide"; Invoked 1 "hide"; Invoked 3 "show"; Invoked 2 "show"].
Proof.
  assert (reachable is_tag mixed) as H1 by (eexists; reflexivity).
  assert (all_rendered mixed) as H2 by (apply all_renderedb_correct; reflexivity).
  split; [exact H1|]. split; [exact H2|].
  destruct (toggleContainers_reverse_order is_tag mixed H1 H2) as (_ & H & _).
  exact (H (ArrayRef 0)).
Defined.



(** ** Further scenarios *)

(** Two functions made by one function expression, for two tags. *)
Definition tag_is (n : nat) (tag : string) : func (Elem := string) :=
  {| fn_id := FUser n;
     fn_src := "function( el ) { return el !== null && el.nodeName === tag; }";
     fn_body := fun el => match el with Some e => String.eqb e tag | None => false end |}.

Lemma key_separates_kinds_witness :
  generateKeyForShowOnValue (Elem := string) (VBool true) = Normal "boolean:true"
  ∧ generateKeyForShowOnValue (Elem := string) (VString "true") = Normal "string:true"
  ∧ ("boolean:true" = "string:true"
     ↔ jQuery_type (Elem := string) (VBool true)
         = jQuery_type (Elem := string) (VString "true")
       ∧ toString (Elem := string) (VBool true)
         = toString (Elem := string) (VString "true")).
Proof.
  split; [reflexivity|]. split; [reflexivity|].
  exact (key_separates_kinds (Elem := string) (VBool true) (VString "true")
           "boolean:true" "string:true" eq_refl eq_refl).
Defined.


Lemma functions_grouped_by_text_witness :
  fn_src (tag_is 1 "img") = fn_src (tag_is 2 "table")
  ∧ fn_body (tag_is 1 "img") (Some "table") = false
  ∧ fn_body (tag_is 2 "table") (Some "table") = true
  ∧ ∃ o1 o2,
      objects (run is_tag [New (Some {| settings_showOn := VFunction (tag_is 1 "img") |});
                           New (Some {| settings_showOn := VFunction (tag_is 2 "table") |})]
                 init) !! 1 = Some o2
      ∧ objects (run is_tag [New (Some {| settings_showOn := VFunction (tag_is 1 "img") |});
                             New (Some {| settings_showOn := VFunction (tag_is 2 "table") |})]
                   init) !! 0 = Some o1
      ∧ showOn o2 = VFunction (tag_is 2 "table")
      ∧ shouldShow o2 = tag_is 1 "img".
Proof.
  split; [reflexivity|]. split; [reflexivity|]. split; [reflexivity|].
  destruct (functions_grouped_by_text is_tag init (tag_is 1 "img") (tag_is 2 "table")
              eq_refl eq_refl) as (o1 & o2 & Ho1 & Ho2 & Hs & _ & Hp).
  exists o1, o2. split; [exact Ho2|]. split; [exact Ho1|]. split; [exact Hs|exact Hp].
Defined.

(** * More about the registry *)

Section Registry.

Context {Elem : Type}.
Variable jq_is : Elem -> string -> bool.

(** ** What a call can change of the store

    [touches cs s s']: between [s] and [s'] only containers of [cs] that
    were rendered changed, and those are rendered still. *)
Definition touches (cs : list nat) (s s' : state (Elem := Elem)) : Prop :=
  ∀ c, objects s' !! c = objects s !! c
       ∨ (c ∈ cs ∧ rendered (objects s) c ∧ rendered (objects s') c).

(** The members of all the groups of a list. *)
Definition members (gs : list (string * group (Elem := Elem))) : list nat :=
  flat_map (fun kg : string * group => group_containers kg.2) gs.

Lemma touches_refl cs (s : state (Elem := Elem)) : touches cs s s.
Proof. intros c. by left. Qed.

Lemma touches_trans cs (s1 s2 s3 : state (Elem := Elem)) :
  touches cs s1 s2 → touches cs s2 s3 → touches cs s1 s3.
Proof.
  intros H1 H2 c. destruct (H1 c) as [E1|(Hc & R1 & R1')], (H2 c) as [E2|(Hc' & R2 & R2')].
  - left. congruence.
  - right. split; [done|]. split; [|done]. unfold rendered in *. by rewrite <- E1.
  - right. split; [done|]. split; [done|]. unfold rendered in *. by rewrite E2.
  - right. done.
Qed.

Lemma touches_mono cs cs' (s s' : state (Elem := Elem)) :
  (∀ c, c ∈ cs → c ∈ cs') → touches cs s s' → touches cs' s s'.
Proof. intros Hsub H c. destruct (H c) as [E|(Hc & R)]; [by left|right; auto]. Qed.


Lemma touches_put b c o d (s : state (Elem := Elem)) :
  objects s !! c = Some o → element o = Some d →
  touches [c] s (put_object c (set_shown b o) s).1.
Proof.
  intros Ho He c'. simpl. destruct (decide (c = c')) as [<-|Hne].
  - right. split; [apply list_elem_of_here|]. split; [by exists o, d|].
    exists (set_shown b o), b.
    by rewrite list_lookup_insert_eq by (by eapply lookup_lt_Some).
  - left. by apply list_lookup_insert_ne.
Qed.

Lemma touches_show c (s : state (Elem := Elem)) : touches [c] s (show c s).1.
Proof.
  unfold show, bind, get_object.
  destruct (objects s !! c) as [o|] eqn:Ho; simpl; [|apply touches_refl].
  destruct (element o) as [d|] eqn:He; simpl; [|apply touches_refl].
  apply (touches_put true c o d s Ho He).
Qed.

Lemma touches_hide c (s : state (Elem := Elem)) : touches [c] s (hide c s).1.
Proof.
  unfold hide, bind, get_object.
  destruct (objects s !! c) as [o|] eqn:Ho; simpl; [|apply touches_refl].
  destruct (element o) as [d|] eqn:He; simpl; [|apply touches_refl].
  apply (touches_put false c o d s Ho He).
Qed.

Lemma touches_invoke c a (s : state (Elem := Elem)) : touches [c] s (invoke c a s).1.
Proof.
  unfold invoke, bind, emit.
  set (s0 := set_trace _ s).
  assert (touches [c] s s0) as H0 by (intros c'; by left).
  apply (touches_trans _ _ _ _ H0).
  simpl. destruct (String.eqb a "show"); [apply touches_show|apply touches_hide].
Qed.


Lemma touches_toggle_loop cs a j (s : state (Elem := Elem)) :
  touches cs s (toggle_loop cs a j s).1.
Proof.
  revert s. induction j as [|j IH]; intros s; simpl; [apply touches_refl|].
  unfold bind at 1.
  destruct (cs !! j) as [c|] eqn:Hc; simpl; [|apply touches_refl].
  assert (touches cs s (invoke c a s).1) as H1.
  { apply (touches_mono [c]); [|apply touches_invoke].
    intros c' ->%list_elem_of_singleton. by eapply list_elem_of_lookup_2. }
  destruct (invoke c a s) as [s1 []]; simpl in *; [|done].
  by apply (touches_trans _ _ _ _ H1).
Qed.


Lemma touches_toggleContainers cs a (s : state (Elem := Elem)) :
  touches cs s (toggleContainers cs a s).1.
Proof.
  unfold toggleContainers.
  destruct (_ && _); [apply touches_refl|apply touches_toggle_loop].
Qed.

Lemma elem_of_members gs c :
  c ∈ members gs ↔ ∃ k g, (k, g) ∈ gs ∧ c ∈ group_containers g.
Proof.
  unfold members. rewrite list_elem_of_In, in_flat_map. split.
  - intros ([k g] & Hin & Hc). exists k, g. by rewrite !list_elem_of_In.
  - intros (k & g & Hin & Hc). exists (k, g). by rewrite <- !list_elem_of_In.
Qed.

Lemma touches_for_each_group els gs (s : state (Elem := Elem)) :
  touches (members gs) s (for_each_group gs els s).1.
Proof.
  revert s. induction gs as [|[k g] gs IH]; intros s; simpl; [apply touches_refl|].
  unfold bind at 1. rewrite test_elements_all. unfold bind at 1.
  set (s0 := set_trace _ s).
  assert (touches (members ((k, g) :: gs)) s s0) as H0 by (intros c; by left).
  apply (touches_trans _ _ _ _ H0).
  assert (touches (members ((k, g) :: gs)) s0 (toggleContainers (group_containers g)
            (if existsb (fn_body (group_shouldShow g)) els then "show" else "hide") s0).1)
    as H1.
  { apply (touches_mono (group_containers g)); [|apply touches_toggleContainers].
    intros c Hc. apply elem_of_app. by left. }
  destruct (toggleContainers _ _ s0) as [s1 []]; simpl in *; [|done].
  apply (touches_trans _ _ _ _ H1).
  apply (touches_mono (members gs)); [|apply IH].
  intros c Hc. apply elem_of_app. by right.
Qed.



(** ** What the call leaves alone *)

(** Whatever the argument and however the call completes,
    [showContainersForElements] registers nothing and removes nothing,
    creates no predicate and no container, and changes no container's
    [showOn], [shouldShow] or [activated]; a container that is in no group,
    or that has no wrapper, is exactly as it was. *)
Theorem showContainersForElements_frame (s : state (Elem := Elem)) arg :
  showGroups (showContainersForElements arg s).1 = showGroups s
  ∧ closures (showContainersForElements arg s).1 = closures s
  ∧ length (objects (showContainersForElements arg s).1) = length (objects s)
  ∧ ∀ c o, objects s !! c = Some o →
      ∃ o', objects (showContainersForElements arg s).1 !! c = Some o'
        ∧ showOn o' = showOn o ∧ shouldShow o' = shouldShow o
        ∧ activated o' = activated o
        ∧ (¬ registered s c ∨ element o = None → o' = o).
Proof.
  rewrite showContainersForElements_unfold.
  match goal with |- context [for_each_group ?gs ?els ?s0] =>
    destruct (toggled_for_each_group els gs s0) as (ts & [G _ C L O _] & _);
    pose proof (touches_for_each_group els gs s0) as Ht;
    assert (objects s0 = objects s ∧ showGroups s0 = showGroups s
            ∧ closures s0 = closures s) as (Ho & Hg & Hc)
      by (destruct arg as [a|]; [|done]; by destruct (arrays s !! a)) end.
  rewrite G, C, L, Ho, Hg, Hc. repeat (split; [done|]).
  intros c o Hco. rewrite <- Ho in Hco.
  destruct (O c o Hco) as (o' & Ho' & (S1 & S2 & S3) & _).
  exists o'. repeat (split; [done|]). intros Hun.
  destruct (Ht c) as [E|(Hc' & (o0 & d & Ho0 & Hd) & _)].
  - congruence.
  - rewrite Ho in Ho0. rewrite Ho in Hco.
    assert (o0 = o) as -> by congruence.
    destruct Hun as [Hun|Hun]; [|congruence].
    destruct Hun. by apply elem_of_members.
Qed.

(** ** Groups and conditions *)













(** ** Registering *)

(** What a successful construction leaves.  When [new Container( settings )]
    returns, the new container is the last member of the group that
    [showGroups] holds under the key of its [showOn], it holds that group's
    predicate, and it starts visible and unrendered; a key that had no group
    has one more group with this one member, a key that had a group has the
    same group with this member pushed; the groups under all other keys, the
    order of the keys and the containers that existed are as they were. *)
Theorem registration_round_trip (s s' : state (Elem := Elem)) v c :
  Container_new jq_is (Some (Settings v)) s = (s', Normal c) →
  ∃ key g o,
    generateKeyForShowOnValue v = Normal key
    ∧ c = length (objects s)
    ∧ group_lookup key (showGroups s') = Some g
    ∧ last (group_containers g) = Some c
    ∧ objects s' !! c = Some o
    ∧ showOn o = v ∧ shouldShow o = group_shouldShow g
    ∧ visible o = true ∧ element o = None
    ∧ match group_lookup key (showGroups s) with
      | None =>
          showGroups s' = showGroups s ++ [(key, g)] ∧ group_containers g = [c]
          ∧ (coerceShowOnToPredicate jq_is v s).2 = Normal (group_shouldShow g)
      | Some g0 =>
          (showGroups s').*1 = (showGroups s).*1
          ∧ group_containers g = group_containers g0 ++ [c]
          ∧ group_shouldShow g = group_shouldShow g0
          ∧ closures s' = closures s
      end
    ∧ (∀ k', k' ≠ key → group_lookup k' (showGroups s') = group_lookup k' (showGroups s))
    ∧ (∀ c' o', objects s !! c' = Some o' → objects s' !! c' = Some o').
Proof.
  intros H. pose proof (Container_new_spec jq_is (Some (Settings v)) s) as H0.
  simpl in H0. destruct (generateKeyForShowOnValue v) as [key|e] eqn:Hk; [|congruence].
  assert (∀ x c' o', objects s !! c' = Some o' → (objects s ++ [x]) !! c' = Some o')
    as Hold by (intros x c' o' Ho'; rewrite lookup_app_l; [done|by eapply lookup_lt_Some]).
  destruct (group_lookup key (showGroups s)) as [g0|] eqn:Hg.
  - rewrite H0 in H. injection H as <- <-.
    eexists key, _, _. split; [done|]. split; [done|]. simpl.
    rewrite group_lookup_push, String.eqb_refl, Hg. simpl.
    split; [done|]. simpl. rewrite last_snoc, lookup_snoc.
    repeat (split; [done|]). split; [by rewrite group_push_keys|].
    split; [|by auto]. intros k' Hne. rewrite group_lookup_push.
    by rewrite (proj2 (String.eqb_neq k' key)).
  - destruct H0 as (f & n & _ & Hco & H0). rewrite H0 in H. injection H as <- <-.
    eexists key, _, _. split; [done|]. split; [done|]. simpl.
    rewrite group_lookup_snoc, Hg, String.eqb_refl.
    split; [done|]. simpl. rewrite lookup_snoc.
    repeat (split; [done|]). split; [by rewrite Hco|].
    split; [|by auto]. intros k' Hne. rewrite group_lookup_snoc.
    destruct (group_lookup k' (showGroups s)); [done|].
    by rewrite (proj2 (String.eqb_neq key k')).
Qed.

(** ** Rendered once, rendered for good *)




End Registry.

(** ** Scenarios of the registry *)






Lemma registration_round_trip_witness :
  Container_new is_tag (Some {| settings_showOn := VBool true |}) two_true
  = ((Container_new is_tag (Some {| settings_showOn := VBool true |}) two_true).1, Normal 2)
  ∧ ∃ g, group_lookup "boolean:true"
           (showGroups (Container_new is_tag (Some {| settings_showOn := VBool true |})
                          two_true).1) = Some g
         ∧ group_containers g = [0; 1; 2].
Proof.
  assert (Container_new is_tag (Some {| settings_showOn := VBool true |}) two_true
          = ((Container_new is_tag (Some {| settings_showOn := VBool true |}) two_true).1,
             Normal 2)) as H by reflexivity.
  split; [exact H|].
  destruct (registration_round_trip is_tag two_true _ (VBool true) 2 H)
    as (key & g & o & Hk & _ & Hg & _ & _ & _ & _ & _ & _ & Hm & _).
  injection Hk as <-. exists g. split; [exact Hg|].
  change (group_lookup "boolean:true" (showGroups two_true)) with (Some true_group) in Hm.
  exact (proj1 (proj2 Hm)).
Defined.


(** * The sidebar: [src/core/sidebar.js]

    The string helpers of the sidebar and its click handling.  A string is
    a sequence of code units; the strings here are those whose code units
    are below 256, one [ascii] each. *)

From Stdlib Require Import Ascii.

Module Sidebar.

(** A call returns a value or throws; [what] names what was thrown. *)
Inductive result (A : Type) :=
| Done (a : A)
| Raised (what : string).
Arguments Done {A} a.
Arguments Raised {A} what.

Definition and_then {A B} (r : result A) (k : A → result B) : result B :=
  match r with
  | Done a => k a
  | Raised w => Raised w
  end.

(** ** [trim]

    [String.prototype.trim] removes WhiteSpace and LineTerminator code units
    from both ends; below 256 these are TAB, LF, VT, FF, CR, SP and NBSP. *)
Definition is_space (c : ascii) : bool :=
  match c with
  | "009" | "010" | "011" | "012" | "013" | " " | "160" => true
  | _ => false
  end%char.

Fixpoint trim_left (s : string) : string :=
  match s with
  | "" => ""
  | String c s' => if is_space c then trim_left s' else s
  end.

Fixpoint trim_right (s : string) : string :=
  match s with
  | "" => ""
  | String c s' =>
      match trim_right s' with
      | "" => if is_space c then "" else String c ""
      | t => String c t
      end
  end.

Definition trim (s : string) : string := trim_right (trim_left s).

(** ** The namespace *)

Definition cssNS : string := "aloha-sidebar".

(** [nsSel]: [$.each(arguments, function () {str += ' .' + prx + '-' + this;});
    return str.trim();]  The arguments are given by what they are as
    strings. *)
Definition nsSel (arguments : list string) : string :=
  trim (fold_left (fun str this => str +:+ " ." +:+ cssNS +:+ "-" +:+ this) arguments "").

(** [nsClass]: the same with [' ' + prx + '-' + this]. *)
Definition nsClass (arguments : list string) : string :=
  trim (fold_left (fun str this => str +:+ " " +:+ cssNS +:+ "-" +:+ this) arguments "").

(** ** [supplant] *)

(** What [obj[p1]] can be for the callback of [supplant]: a falsy value; a
    truthy value that is not a function, given by what it is as a string; or
    a function, given by what a call of it yields as a string, or throws. *)
Inductive member :=
| Falsy
| Text (s : string)
| Function (r : result string).

(** The class [[a-z0-9\-\_]] under the flag [i]. *)
Definition is_name_char (c : ascii) : bool :=
  let n := nat_of_ascii c in
  ((97 <=? n) && (n <=? 122)) || ((65 <=? n) && (n <=? 90))
  || ((48 <=? n) && (n <=? 57)) || (n =? 45) || (n =? 95).

(** The longest run of name characters a string starts with: what the
    greedy [+] takes. *)
Fixpoint name_run (s : string) : string :=
  match s with
  | "" => ""
  | String c s' => if is_name_char c then String c (name_run s') else ""
  end.

(** Whether [/\{([a-z0-9\-\_]+)\}/i] matches where a brace was just read,
    [s] being the text behind that brace; the answer is the group [p1].  The
    run has to be followed by the closing brace: giving back characters of
    the run cannot help, since they are no closing braces. *)
Definition placeholder_at (s : string) : option string :=
  match name_run s with
  | "" => None
  | p1 =>
      match String.get (String.length p1) s with
      | Some "}"%char => Some p1
      | _ => None
      end
  end.

(** The callback: [var replacement = obj[p1] || str;
    return (typeof replacement == 'function') ? replacement() : replacement;] *)
Definition replacement (obj : string → member) (p1 : string) : result string :=
  match obj p1 with
  | Falsy => Done ("{" +:+ p1 +:+ "}")
  | Text s => Done s
  | Function r => r
  end.

(** [this.replace(/.../ig, callback)]: the text is read from the left; where
    the expression matches, the callback's answer takes the place of the
    match and reading goes on behind the match ([skip] counts the characters
    of a match that are still to be passed over); elsewhere the character is
    kept. *)
Fixpoint replace_from (obj : string → member) (skip : nat) (s : string) : result string :=
  match s with
  | "" => Done ""
  | String c rest =>
      match skip with
      | S k => replace_from obj k rest
      | 0 =>
          match (if Stdlib.Strings.Ascii.eqb c "{" then placeholder_at rest else None) with
          | Some p1 =>
              and_then (replacement obj p1) (fun r =>
              and_then (replace_from obj (S (String.length p1)) rest) (fun t =>
              Done (r +:+ t)))
          | None =>
              and_then (replace_from obj 0 rest) (fun t => Done (String c t))
          end
      end
  end.

Definition supplant (this : string) (obj : string → member) : result string :=
  replace_from obj 0 this.

(** ** [nsClasses] and [renderTemplate] *)

Definition nsClasses_keys : list string :=
  ["bar"; "bottom"; "config-btn"; "handle"; "inner"; "panel-content";
   "panel-title"; "panels"; "shadow"; "toggle"; "toggle-img"].

(** [nsClasses[ name ]].  The object is a literal, so a name that is none of
    its keys is looked up in [Object.prototype]. *)
Definition nsClasses (Object_prototype : string → member) (name : string) : member :=
  if bool_decide (name ∈ nsClasses_keys) then Text (nsClass [name])
  else Object_prototype name.

(** [renderTemplate]: [(typeof str == 'string') ? str.supplant(nsClasses) : str] *)
Definition renderTemplate {X} (Object_prototype : string → member) (str : string + X)
  : result (string + X) :=
  match str with
  | inl s => and_then (supplant s (nsClasses Object_prototype)) (fun t => Done (inl t))
  | inr x => Done (inr x)
  end.

(** ** Facts about strings *)

Lemma append_cons c s t : String c s +:+ t = String c (s +:+ t).
Proof. reflexivity. Qed.

Lemma append_nil_l t : "" +:+ t = t.
Proof. reflexivity. Qed.

Lemma append_nil_r s : s +:+ "" = s.
Proof. induction s as [|c s IH]; [done|]. by rewrite append_cons, IH. Qed.

Lemma append_assoc s t u : (s +:+ t) +:+ u = s +:+ t +:+ u.
Proof. induction s as [|c s IH]; [done|]. by rewrite !append_cons, IH. Qed.

Lemma length_append s t : String.length (s +:+ t) = String.length s + String.length t.
Proof. induction s as [|c s IH]; [done|]. rewrite append_cons. simpl. by rewrite IH. Qed.

(** Whether a character occurs in a string. *)
Fixpoint mentions (c : ascii) (s : string) : bool :=
  match s with
  | "" => false
  | String c' s' => Stdlib.Strings.Ascii.eqb c' c || mentions c s'
  end.

(** A string without its first [n] characters. *)
Fixpoint string_drop (n : nat) (s : string) : string :=
  match n, s with
  | S k, String _ s' => string_drop k s'
  | _, _ => s
  end.

Lemma string_drop_append s t : string_drop (String.length s) (s +:+ t) = t.
Proof. induction s as [|c s IH]; [by destruct t|]. by rewrite append_cons. Qed.

(** ** [trim], [nsClass] and [nsSel] *)

Lemma trim_right_cons c s :
  is_space c = false → trim_right (String c s) = String c (trim_right s).
Proof. intros Hc. simpl. rewrite Hc. by destruct (trim_right s). Qed.

Lemma trim_right_fixed_cons c s :
  trim_right s = s → s ≠ "" → trim_right (String c s) = String c s.
Proof. intros Hs Hne. simpl. rewrite Hs. by destruct s. Qed.

Lemma trim_right_fixed_append s t :
  trim_right t = t → t ≠ "" → trim_right (s +:+ t) = s +:+ t.
Proof.
  intros Ht Hne. induction s as [|c s IH]; [done|].
  rewrite append_cons. apply trim_right_fixed_cons; [done|].
  destruct s; [done|]. by rewrite append_cons.
Qed.

(** The classes of some names, each behind [sep]. *)
Definition joined (sep : string) (names : list string) : string :=
  fold_right (fun this r => sep +:+ cssNS +:+ "-" +:+ this +:+ r) "" names.

Lemma fold_left_joined sep names acc :
  fold_left (fun str this => str +:+ sep +:+ cssNS +:+ "-" +:+ this) names acc
  = acc +:+ joined sep names.
Proof.
  revert acc. induction names as [|a names IH]; intros acc; simpl.
  - by rewrite append_nil_r.
  - rewrite IH. by rewrite !append_assoc.
Qed.

Lemma nsClass_cons a names :
  nsClass (a :: names) = "aloha-sidebar-" +:+ trim_right (a +:+ joined " " names).
Proof.
  unfold nsClass. rewrite fold_left_joined. simpl joined.
  unfold trim, cssNS. rewrite !append_nil_l.
  change (trim_left (" " +:+ "aloha-sidebar" +:+ "-" +:+ a +:+ joined " " names))
    with ("aloha-sidebar-" +:+ a +:+ joined " " names).
  change ("aloha-sidebar-" +:+ ?x) with
    (String "a" (String "l" (String "o" (String "h" (String "a" (String "-"
     (String "s" (String "i" (String "d" (String "e" (String "b" (String "a"
     (String "r" (String "-" x)))))))))))))).
  by rewrite !trim_right_cons by done.
Qed.

Lemma nsSel_cons a names :
  nsSel (a :: names) = ".aloha-sidebar-" +:+ trim_right (a +:+ joined " ." names).
Proof.
  unfold nsSel. rewrite fold_left_joined. simpl joined.
  unfold trim, cssNS. rewrite !append_nil_l.
  change (trim_left (" ." +:+ "aloha-sidebar" +:+ "-" +:+ a +:+ joined " ." names))
    with (".aloha-sidebar-" +:+ a +:+ joined " ." names).
  change (".aloha-sidebar-" +:+ ?x) with
    (String "." (String "a" (String "l" (String "o" (String "h" (String "a" (String "-"
     (String "s" (String "i" (String "d" (String "e" (String "b" (String "a"
     (String "r" (String "-" x))))))))))))))).
  by rewrite !trim_right_cons by done.
Qed.

Lemma joined_fixed sep a names l :
  last (a :: names) = Some l → trim_right l = l →
  trim_right (a +:+ joined sep names) = a +:+ joined sep names.
Proof.
  revert a. induction names as [|b names IH]; intros a Hl Ht.
  - simpl in *. injection Hl as ->. by rewrite append_nil_r.
  - simpl joined.
    replace (a +:+ sep +:+ cssNS +:+ "-" +:+ b +:+ joined sep names)
      with ((a +:+ sep +:+ cssNS) +:+ "-" +:+ b +:+ joined sep names)
      by (by rewrite !append_assoc).
    apply trim_right_fixed_append; [|done].
    change ("-" +:+ b +:+ joined sep names) with (String "-" (b +:+ joined sep names)).
    rewrite trim_right_cons by done. f_equal. by apply (IH b).
Qed.


Lemma joined_concat dot a names :
  (dot +:+ "aloha-sidebar-" +:+ a) +:+ joined (" " +:+ dot) names
  = String.concat " " (map (fun n => dot +:+ "aloha-sidebar-" +:+ n) (a :: names)).
Proof.
  revert a. induction names as [|b names IH]; intros a.
  - simpl. by rewrite append_nil_r.
  - change (String.concat " " (map (fun n => dot +:+ "aloha-sidebar-" +:+ n) (a :: b :: names)))
      with ((dot +:+ "aloha-sidebar-" +:+ a) +:+ " "
            +:+ String.concat " " (map (fun n => dot +:+ "aloha-sidebar-" +:+ n) (b :: names))).
    rewrite <- IH. simpl joined. unfold cssNS.
    change ("aloha-sidebar" +:+ "-" +:+ ?x) with ("aloha-sidebar-" +:+ x).
    by rewrite !append_assoc.
Qed.

(** The names in the namespace.  [nsSel] of one name is a dot and [nsClass]
    of that name, so the selector made for a name selects the class made for
    it; every class made starts with the namespace prefix; for names of which
    the last does not end in white space, [nsClass] is the prefixed names
    with single spaces between them and [nsSel] the same with a dot before
    each; and without arguments both are the empty string. *)
Theorem nsClass_nsSel :
  nsClass [] = "" ∧ nsSel [] = ""
  ∧ (∀ a, nsSel [a] = "." +:+ nsClass [a])
  ∧ (∀ a names, ∃ t, nsClass (a :: names) = "aloha-sidebar-" +:+ t)
  ∧ (∀ names l, last names = Some l → trim_right l = l →
       nsClass names = String.concat " " (map (fun n => "aloha-sidebar-" +:+ n) names)
       ∧ nsSel names = String.concat " " (map (fun n => ".aloha-sidebar-" +:+ n) names)).
Proof.
  split; [done|]. split; [done|]. split; [|split].
  - intros a. by rewrite nsSel_cons, nsClass_cons.
  - intros a names. rewrite nsClass_cons. by eexists.
  - intros [|a names] l Hl Ht; [done|].
    rewrite nsSel_cons, nsClass_cons.
    rewrite !(joined_fixed _ a names l Hl Ht). split.
    + pose proof (joined_concat "" a names) as H.
      change ("" +:+ ?x) with x in H. change (" " +:+ "") with " " in H.
      by rewrite <- H, !append_assoc.
    + pose proof (joined_concat "." a names) as H.
      change ("." +:+ "aloha-sidebar-" +:+ ?x) with (".aloha-sidebar-" +:+ x) in H.
      change (" " +:+ ".") with " ." in H.
      by rewrite <- H, !append_assoc.
Qed.

(** ** [supplant] *)

Lemma is_name_char_brace : is_name_char "}" = false.
Proof. reflexivity. Qed.

Lemma name_run_append p1 post :
  name_run p1 = p1 → name_run (p1 +:+ String "}" post) = p1.
Proof.
  induction p1 as [|c p1 IH]; [done|]. rewrite append_cons. simpl.
  destruct (is_name_char c); [|done]. intros [= H]. by rewrite IH.
Qed.

Lemma get_append p1 c post :
  String.get (String.length p1) (p1 +:+ String c post) = Some c.
Proof. induction p1 as [|c' p1 IH]; [done|]. by rewrite append_cons. Qed.

Lemma placeholder_at_append p1 post :
  p1 ≠ "" → name_run p1 = p1 → placeholder_at (p1 +:+ String "}" post) = Some p1.
Proof.
  intros Hne Hp. unfold placeholder_at. rewrite (name_run_append _ _ Hp).
  destruct p1 as [|c p]; [done|]. by rewrite (get_append (String c p)).
Qed.

Lemma name_run_prefix s : ∃ t, s = name_run s +:+ t.
Proof.
  induction s as [|c s [t IH]]; [by exists ""|]. simpl.
  destruct (is_name_char c); [|by eexists].
  exists t. by rewrite append_cons, <- IH.
Qed.

Lemma name_run_idemp s : name_run (name_run s) = name_run s.
Proof.
  induction s as [|c s IH]; [done|]. simpl.
  destruct (is_name_char c) eqn:Hc; [|done]. simpl. by rewrite Hc, IH.
Qed.

Lemma get_length_append p1 t c :
  String.get (String.length p1) (p1 +:+ t) = Some c → ∃ post, t = String c post.
Proof.
  induction p1 as [|c' p1 IH]; [|by rewrite append_cons].
  destruct t as [|c0 t]; [done|]. intros [= ->]. by eexists.
Qed.

(** Where the expression matches, the text is the name, the closing brace
    and a rest. *)
Lemma placeholder_at_inv s p1 :
  placeholder_at s = Some p1 →
  p1 ≠ "" ∧ name_run p1 = p1 ∧ ∃ post, s = p1 +:+ String "}" post.
Proof.
  unfold placeholder_at. destruct (name_run_prefix s) as [t Ht].
  pose proof (name_run_idemp s) as Hi.
  destruct (name_run s) as [|c0 r] eqn:Hr; [done|].
  destruct (String.get _ s) as [c|] eqn:Hg; [|done].
  destruct (Stdlib.Strings.Ascii.eqb_spec c "}") as [->|Hne].
  - intros [= <-]. split; [done|]. split; [done|].
    rewrite Ht in Hg. apply get_length_append in Hg as [post ->]. by exists post.
  - intros H. exfalso. destruct c as [[] [] [] [] [] [] [] []]; done.
Qed.

Lemma replace_from_skip obj a b :
  replace_from obj (String.length a) (a +:+ b) = replace_from obj 0 b.
Proof. induction a as [|c a IH]; [by destruct b|]. by rewrite append_cons. Qed.

Lemma and_then_assoc {A B C} (r : result A) (k : A → result B) (h : B → result C) :
  and_then (and_then r k) h = and_then r (fun a => and_then (k a) h).
Proof. by destruct r. Qed.

Lemma supplant_cons c s obj :
  c ≠ "{"%char →
  supplant (String c s) obj = and_then (supplant s obj) (fun t => Done (String c t)).
Proof.
  intros Hc. unfold supplant. simpl.
  by rewrite (proj2 (Stdlib.Strings.Ascii.eqb_neq c "{") Hc).
Qed.

Lemma supplant_placeholder p1 post obj :
  p1 ≠ "" → name_run p1 = p1 →
  supplant ("{" +:+ p1 +:+ "}" +:+ post) obj
  = and_then (replacement obj p1) (fun r =>
    and_then (supplant post obj) (fun t => Done (r +:+ t))).
Proof.
  intros Hne Hp. unfold supplant.
  change ("{" +:+ p1 +:+ "}" +:+ post) with (String "{" (p1 +:+ String "}" post)).
  simpl. rewrite (placeholder_at_append _ _ Hne Hp).
  replace (p1 +:+ String "}" post) with ((p1 +:+ "}") +:+ post)
    by (by rewrite append_assoc).
  replace (S (String.length p1)) with (String.length (p1 +:+ "}"))
    by (rewrite length_append; simpl; lia).
  by rewrite replace_from_skip.
Qed.

(** Expansion.  In a text that begins with a part without opening brace,
    then has a placeholder (a brace, a name of one or more letters, digits,
    hyphens and underscores, a closing brace) and then a rest, [supplant]
    keeps the first part, puts in place of the placeholder what the object
    has under the name (the placeholder itself when that is falsy, the
    answer of a call when it is a function) and goes on with the rest; what
    was put in place is not read again, and a callback that throws ends the
    replacement. *)
Theorem supplant_expands pre p1 post obj :
  mentions "{" pre = false → p1 ≠ "" → name_run p1 = p1 →
  supplant (pre +:+ "{" +:+ p1 +:+ "}" +:+ post) obj
  = and_then (replacement obj p1) (fun r =>
    and_then (supplant post obj) (fun t => Done (pre +:+ r +:+ t))).
Proof.
  intros Hpre Hne Hp. induction pre as [|c pre IH].
  - rewrite append_nil_l. by apply supplant_placeholder.
  - simpl in Hpre. apply orb_false_elim in Hpre as [Hc Hpre].
    rewrite append_cons, supplant_cons by (by apply Stdlib.Strings.Ascii.eqb_neq).
    rewrite (IH Hpre), and_then_assoc.
    destruct (replacement obj p1) as [r|w]; [|done]. simpl.
    rewrite and_then_assoc. by destruct (supplant post obj).
Qed.

Lemma replace_from_falsy obj s n :
  (∀ name, obj name = Falsy) → replace_from obj n s = Done (string_drop n s).
Proof.
  intros Hobj. revert n. induction s as [|c s IH]; intros n; [by destruct n|].
  destruct n as [|n]; simpl; [|apply IH].
  destruct (Stdlib.Strings.Ascii.eqb_spec c "{") as [->|Hc].
  - destruct (placeholder_at s) as [p1|] eqn:Hp.
    + apply placeholder_at_inv in Hp as (_ & _ & post & ->).
      unfold replacement. rewrite Hobj, IH. unfold and_then.
      assert (string_drop (S (String.length p1)) (p1 +:+ String "}" post) = post) as ->.
      { replace (p1 +:+ String "}" post) with ((p1 +:+ "}") +:+ post)
          by (by rewrite append_assoc).
        replace (S (String.length p1)) with (String.length (p1 +:+ "}"))
          by (rewrite length_append; simpl; lia).
        apply string_drop_append. }
      by rewrite !append_assoc.
    + by rewrite IH.
  - by rewrite IH.
Qed.

Lemma supplant_no_brace s obj : mentions "{" s = false → supplant s obj = Done s.
Proof.
  induction s as [|c s IH]; [done|]. simpl.
  intros [Hc Hs]%orb_false_elim.
  rewrite supplant_cons by (by apply Stdlib.Strings.Ascii.eqb_neq). by rewrite IH.
Qed.

(** Nothing to replace.  [supplant] returns the text as it is when the text
    has no opening brace, and also when the object has nothing truthy under
    any name: placeholders whose names the object does not know stay in the
    text. *)
Theorem supplant_unchanged s obj :
  (mentions "{" s = false → supplant s obj = Done s)
  ∧ ((∀ name, obj name = Falsy) → supplant s obj = Done s).
Proof.
  split; [apply supplant_no_brace|].
  intros Hobj. unfold supplant. by rewrite replace_from_falsy.
Qed.

(** ** [renderTemplate] *)

Lemma nsClasses_keys_names name :
  name ∈ nsClasses_keys →
  name ≠ "" ∧ name_run name = name ∧ nsClass [name] = "aloha-sidebar-" +:+ name.
Proof.
  unfold nsClasses_keys. rewrite !elem_of_cons, elem_of_nil.
  intros H. repeat (destruct H as [->|H]; [by repeat split|]). done.
Qed.

(** The templates of the sidebar.  [renderTemplate] gives back what is no
    string as it is; in a string it puts, for each of the eleven names of
    [nsClasses] that stands in braces behind a part without opening brace,
    the name with the namespace prefix, whatever [Object.prototype] holds,
    and goes on with the rest. *)
Theorem renderTemplate_namespaces {X} Object_prototype :
  (∀ x : X, renderTemplate Object_prototype (inr x) = Done (inr x))
  ∧ (∀ pre name post,
       mentions "{" pre = false → name ∈ nsClasses_keys →
       renderTemplate (X := X) Object_prototype (inl (pre +:+ "{" +:+ name +:+ "}" +:+ post))
       = and_then (supplant post (nsClasses Object_prototype)) (fun t =>
           Done (inl (pre +:+ "aloha-sidebar-" +:+ name +:+ t)))).
Proof.
  split; [done|]. intros pre name post Hpre Hname.
  destruct (nsClasses_keys_names name Hname) as (Hne & Hrun & Hcls).
  unfold renderTemplate. rewrite (supplant_expands pre name post _ Hpre Hne Hrun).
  unfold replacement, nsClasses. rewrite bool_decide_eq_true_2 by done. simpl.
  rewrite Hcls, and_then_assoc. destruct (supplant post _); [|done].
  simpl. by rewrite append_assoc.
Qed.


(** ** Panels and clicks *)

(** An element as the click handling reads it: [tagName], the class names
    of [className], and [id]. *)
Record node := Node {
  tagName : string;
  classes : list string;
  elem_id : string
}.

(** A jQuery object that holds at most one element, given with the
    ancestors of that element: the element, its parent, and so on up to the
    root.  The empty list is the jQuery object that holds nothing. *)
Definition jq := list node.

(** [el.hasClass( cls )], for a class name without white space. *)
Definition hasClass (el : jq) (cls : string) : bool :=
  match el with
  | n :: _ => bool_decide (cls ∈ classes n)
  | [] => false
  end.

(** [el.parent()] *)
Definition parent (el : jq) : jq := tail el.

(** [el.parent('li')], in an HTML document, where tag names are in upper
    case. *)
Definition parent_li (el : jq) : jq :=
  match parent el with
  | p :: up => if String.eqb (tagName p) "LI" then p :: up else []
  | [] => []
  end.

(** What [this.panels[ id ]], or the [panel] argument of a method, can be: a
    panel, a falsy value ([undefined] where no property is found), or some
    other truthy value, which has none of the methods of a panel (what
    [Object.prototype] holds under a name). *)
Inductive slot :=
| APanel (p : nat)
| Nothing
| Something.

(** The height a panel's content is animated to: the height it has under
    [height('auto')], or [0]. *)
Inductive height := Natural | Zero.

(** A call of [animate] on the content of panel [p]; [complete] is the
    function that the completion handler will call, if it will call one. *)
Inductive event := Animated (p : nat) (to : height) (complete : option nat).

(** A [callback] argument: a function, or something else. *)
Inductive arg := Fn (f : nat) | NotFn.

(** The sidebar with its panels: [this.panels], the [expanded] flag of every
    panel, and the animations started so far. *)
Record sidebar := {
  panels : string → slot;
  expanded : nat → bool;
  log : list event
}.

(** [if (typeof callback == 'function') { callback.call(that); }] *)
Definition on_complete (callback : arg) : option nat :=
  match callback with
  | Fn f => Some f
  | NotFn => None
  end.

Definition set_expanded (p : nat) (b : bool) (to : height) (complete : option nat)
  (st : sidebar) : sidebar :=
  {| panels := panels st;
     expanded := fun q => if Nat.eqb q p then b else expanded st q;
     log := log st ++ [Animated p to complete] |}.

(** [Panel.prototype.expand( callback )] *)
Definition Panel_expand (p : nat) (callback : arg) (st : sidebar) : sidebar :=
  set_expanded p true Natural (on_complete callback) st.

(** [Panel.prototype.collapse( duration, callback )]; [duration] is not
    read. *)
Definition Panel_collapse (p : nat) (duration callback : arg) (st : sidebar) : sidebar :=
  set_expanded p false Zero (on_complete callback) st.

(** [Panel.prototype.toggle()] *)
Definition Panel_toggle (p : nat) (st : sidebar) : sidebar :=
  if expanded st p then Panel_collapse p NotFn NotFn st
  else Panel_expand p NotFn st.

(** [_getPanelById( id )] *)
Definition getPanelById (st : sidebar) (id : string) : slot := panels st id.

(** [_getPanelByElement( el )]:
    [var li = (el[0].tagName == 'LI') ? el : el.parent('li');
     return this._getPanelById(li[0].id);] *)
Definition getPanelByElement (st : sidebar) (el : jq) : result slot :=
  match el with
  | [] => Raised "TypeError"
  | n :: _ =>
      let li := if String.eqb (tagName n) "LI" then el else parent_li el in
      match li with
      | [] => Raised "TypeError"
      | l :: _ => Done (getPanelById st (elem_id l))
      end
  end.

(** [_togglePanel( el )]: [this._getPanelByElement(el).toggle();] *)
Definition togglePanel (st : sidebar) (el : jq) : sidebar * result unit :=
  match getPanelByElement st el with
  | Done (APanel p) => (Panel_toggle p st, Done tt)
  | Done Nothing | Done Something => (st, Raised "TypeError")
  | Raised w => (st, Raised w)
  end.

(** [_handleBarclick( el )].  On the jQuery object that holds nothing every
    test fails and [el.parent()] holds nothing again: the recursion does not
    end, which the engine answers with a [RangeError]. *)
Fixpoint handleBarclick (st : sidebar) (el : jq) : sidebar * result unit :=
  match el with
  | [] => (st, Raised "RangeError")
  | _ :: up =>
      if hasClass el (nsClass ["panel-title"]) then togglePanel st el
      else if hasClass el (nsClass ["panel-content"]) then (st, Done tt)
      else if hasClass el (nsClass ["handle"]) then (st, Done tt)
      else if hasClass el (nsClass ["bar"]) then (st, Done tt)
      else handleBarclick st up
  end.

(** [_barClicked( ev )]: [this._handleBarclick($(ev.target));] *)
Definition barClicked (st : sidebar) (target : jq) : sidebar * result unit :=
  handleBarclick st target.

(** The [panel] argument of [expandPanel] and [collapsePanel]: a string, or
    another value. *)
Inductive panel_arg :=
| AString (id : string)
| AValue (v : slot).

(** [if (typeof panel == 'string') { panel = this._getPanelById(panel); }] *)
Definition resolve (st : sidebar) (panel : panel_arg) : slot :=
  match panel with
  | AString id => getPanelById st id
  | AValue v => v
  end.

(** [expandPanel( panel, callback )] *)
Definition expandPanel (st : sidebar) (panel : panel_arg) (callback : arg)
  : sidebar * result unit :=
  match resolve st panel with
  | APanel p => (Panel_expand p callback st, Done tt)
  | Nothing => (st, Done tt)
  | Something => (st, Raised "TypeError")
  end.

(** [collapsePanel( panel, duration, callback )]: it calls
    [panel.collapse(callback)], so its callback is the [duration] of
    [collapse], whose own [callback] is [undefined]. *)
Definition collapsePanel (st : sidebar) (panel : panel_arg) (duration callback : arg)
  : sidebar * result unit :=
  match resolve st panel with
  | APanel p => (Panel_collapse p callback NotFn st, Done tt)
  | Nothing => (st, Done tt)
  | Something => (st, Raised "TypeError")
  end.

(** The classes at which a click stops. *)
Definition significant (n : node) : bool :=
  existsb (fun cls => bool_decide (cls ∈ classes n))
    ["aloha-sidebar-panel-title"; "aloha-sidebar-panel-content";
     "aloha-sidebar-handle"; "aloha-sidebar-bar"].

Lemma handleBarclick_significant st n up :
  significant n = true →
  handleBarclick st (n :: up)
  = if bool_decide ("aloha-sidebar-panel-title" ∈ classes n)
    then togglePanel st (n :: up) else (st, Done tt).
Proof.
  unfold significant. simpl.
  change (nsClass ["panel-title"]) with "aloha-sidebar-panel-title".
  change (nsClass ["panel-content"]) with "aloha-sidebar-panel-content".
  change (nsClass ["handle"]) with "aloha-sidebar-handle".
  change (nsClass ["bar"]) with "aloha-sidebar-bar".
  destruct (bool_decide ("aloha-sidebar-panel-title" ∈ classes n)); [done|].
  destruct (bool_decide ("aloha-sidebar-panel-content" ∈ classes n)); [done|].
  destruct (bool_decide ("aloha-sidebar-handle" ∈ classes n)); [done|].
  by destruct (bool_decide ("aloha-sidebar-bar" ∈ classes n)).
Qed.

Lemma handleBarclick_insignificant st n up :
  significant n = false → handleBarclick st (n :: up) = handleBarclick st up.
Proof.
  unfold significant. simpl.
  change (nsClass ["panel-title"]) with "aloha-sidebar-panel-title".
  change (nsClass ["panel-content"]) with "aloha-sidebar-panel-content".
  change (nsClass ["handle"]) with "aloha-sidebar-handle".
  change (nsClass ["bar"]) with "aloha-sidebar-bar".
  destruct (bool_decide ("aloha-sidebar-panel-title" ∈ classes n)); [done|].
  destruct (bool_decide ("aloha-sidebar-panel-content" ∈ classes n)); [done|].
  destruct (bool_decide ("aloha-sidebar-handle" ∈ classes n)); [done|].
  by destruct (bool_decide ("aloha-sidebar-bar" ∈ classes n)).
Qed.

(** Where a click arrives.  A click is handled at the nearest element, from
    the clicked one upwards, that has one of the classes of a panel title, a
    panel content, the handle or the bar: the panel is toggled when that
    element is a panel title (also when it has other classes of the four
    besides), and nothing happens otherwise; when no element up to the root
    has such a class the call does not return but ends in a [RangeError]. *)
Theorem handleBarclick_nearest st below :
  (∀ m, m ∈ below → significant m = false) →
  handleBarclick st below = (st, Raised "RangeError")
  ∧ ∀ n up, significant n = true →
      handleBarclick st (below ++ n :: up)
      = if bool_decide ("aloha-sidebar-panel-title" ∈ classes n)
        then togglePanel st (n :: up) else (st, Done tt).
Proof.
  induction below as [|m below IH]; intros Hb.
  - split; [done|]. intros n up. apply handleBarclick_significant.
  - assert (significant m = false) as Hm by (apply Hb, list_elem_of_here).
    destruct IH as [IH1 IH2].
    { intros m' Hm'. by apply Hb, list_elem_of_further. }
    split.
    + by rewrite handleBarclick_insignificant.
    + intros n up Hn. simpl app. rewrite handleBarclick_insignificant by done. by apply IH2.
Qed.

(** A click on a panel's title.  When the clicked element is the title, its
    parent is the [li] and [this.panels] has a panel under the [id] of the
    [li], the click flips the [expanded] flag of that panel and of no other,
    starts one animation of its content, to height [0] if it was expanded and
    to its natural height if not, with no function to call at the end, and
    a second click brings the flag back; when [this.panels] has no panel
    under that [id] the click throws a [TypeError] and changes nothing. *)
Theorem title_click st title li up :
  "aloha-sidebar-panel-title" ∈ classes title →
  tagName title ≠ "LI" → tagName li = "LI" →
  match panels st (elem_id li) with
  | APanel p =>
      ∃ st', barClicked st (title :: li :: up) = (st', Done tt)
        ∧ expanded st' p = negb (expanded st p)
        ∧ (∀ q, q ≠ p → expanded st' q = expanded st q)
        ∧ panels st' = panels st
        ∧ log st' = log st ++ [Animated p (if expanded st p then Zero else Natural) None]
        ∧ ∃ st'', barClicked st' (title :: li :: up) = (st'', Done tt)
            ∧ expanded st'' p = expanded st p
  | _ => barClicked st (title :: li :: up) = (st, Raised "TypeError")
  end.
Proof.
  intros Ht Hn Hli.
  assert (∀ s, barClicked s (title :: li :: up) = togglePanel s (title :: li :: up)) as Hb.
  { intros s. unfold barClicked. rewrite handleBarclick_significant.
    - by rewrite bool_decide_eq_true_2.
    - unfold significant. simpl. by rewrite bool_decide_eq_true_2. }
  assert (∀ s, getPanelByElement s (title :: li :: up) = Done (panels s (elem_id li))) as Hg.
  { intros s. unfold getPanelByElement, parent_li. simpl.
    rewrite (proj2 (String.eqb_neq _ _) Hn). by rewrite Hli. }
  rewrite !Hb. unfold togglePanel. rewrite Hg.
  destruct (panels st (elem_id li)) as [p| |] eqn:Hp; [|done..].
  eexists. split; [done|].
  assert (∀ s, expanded (Panel_toggle p s) p = negb (expanded s p)) as Hflip.
  { intros s. unfold Panel_toggle. destruct (expanded s p) eqn:He; simpl;
      by rewrite Nat.eqb_refl. }
  assert (∀ s, panels (Panel_toggle p s) = panels s) as Hpan.
  { intros s. unfold Panel_toggle. by destruct (expanded s p). }
  split; [apply Hflip|]. split.
  { intros q Hq. unfold Panel_toggle. destruct (expanded st p); simpl;
      by rewrite (proj2 (Nat.eqb_neq q p) Hq). }
  split; [apply Hpan|]. split.
  { unfold Panel_toggle. by destruct (expanded st p). }
  rewrite Hb. unfold togglePanel. rewrite Hg, Hpan, Hp.
  eexists. split; [done|]. rewrite !Hflip. apply negb_involutive.
Qed.

(** The callback of [collapsePanel] is never called.  [expandPanel] hands
    its callback to the animation it starts, which calls it at its end;
    [collapsePanel] passes its callback to [collapse] in the place of the
    duration, so the animation it starts has no function to call, whatever
    the callback and the duration are.  Both set the panel's [expanded] flag,
    accept the panel or its name, do nothing for a name that [this.panels]
    does not have, and throw for a truthy value that is no panel. *)
Theorem collapsePanel_drops_callback st panel duration callback :
  match resolve st panel with
  | APanel p =>
      ∃ st1 st2,
        expandPanel st panel callback = (st1, Done tt)
        ∧ log st1 = log st ++ [Animated p Natural (on_complete callback)]
        ∧ expanded st1 p = true
        ∧ collapsePanel st panel duration callback = (st2, Done tt)
        ∧ log st2 = log st ++ [Animated p Zero None]
        ∧ expanded st2 p = false
        ∧ (∀ q, q ≠ p → expanded st1 q = expanded st q ∧ expanded st2 q = expanded st q)
  | Nothing =>
      expandPanel st panel callback = (st, Done tt)
      ∧ collapsePanel st panel duration callback = (st, Done tt)
  | Something =>
      expandPanel st panel callback = (st, Raised "TypeError")
      ∧ collapsePanel st panel duration callback = (st, Raised "TypeError")
  end.
Proof.
  unfold expandPanel, collapsePanel.
  destruct (resolve st panel) as [p| |]; [|done..].
  eexists _, _. split; [done|]. split; [done|].
  split; [simpl; by rewrite Nat.eqb_refl|]. split; [done|]. split; [done|].
  split; [simpl; by rewrite Nat.eqb_refl|].
  intros q Hq. simpl. by rewrite (proj2 (Nat.eqb_neq q p) Hq).
Qed.


(** ** Scenarios of the sidebar *)

(** An object with [a] and [b], and a function under [f] that throws. *)
Definition demo_obj (name : string) : member :=
  if String.eqb name "a" then Text "{b}"
  else if String.eqb name "b" then Text "c"
  else if String.eqb name "f" then Function (Raised "Error")
  else Falsy.

Example supplant_demo :
  supplant "x{a}y{b}z{c}{ab{a}}{}{A}" demo_obj = Done "x{b}ycz{c}{ab{b}}{}{A}"
  ∧ supplant "{a}{f}{b}" demo_obj = Raised "Error".
Proof. split; reflexivity. Qed.

Example nsClass_demo :
  nsClass ["bar"] = "aloha-sidebar-bar"
  ∧ nsSel ["panels"] = ".aloha-sidebar-panels"
  ∧ nsClass ["a"; "b "] = "aloha-sidebar-a aloha-sidebar-b"
  ∧ nsClass ["1700000000001"] = "aloha-sidebar-1700000000001".
Proof. repeat split; reflexivity. Qed.

Lemma supplant_expands_witness :
  mentions "{" "x" = false ∧ "a" ≠ "" ∧ name_run "a" = "a"
  ∧ supplant ("x" +:+ "{" +:+ "a" +:+ "}" +:+ "y{b}") demo_obj = Done "x{b}yc".
Proof.
  assert ("a" ≠ "") as H by discriminate.
  split; [reflexivity|]. split; [exact H|]. split; [reflexivity|].
  exact (supplant_expands "x" "a" "y{b}" demo_obj eq_refl H eq_refl).
Defined.

(** A sidebar with the panels [t1] and [t2], both expanded, as the file
    makes it when the document is ready. *)
Definition demo_sidebar : sidebar :=
  {| panels := fun id => if String.eqb id "t1" then APanel 0
                         else if String.eqb id "t2" then APanel 1
                         else if String.eqb id "constructor" then Something
                         else Nothing;
     expanded := fun p => true;
     log := [] |}.

Definition bar_node : node :=
  {| tagName := "DIV"; classes := ["aloha-sidebar-bar"]; elem_id := "" |}.
Definition inner_node : node :=
  {| tagName := "DIV"; classes := ["aloha-sidebar-inner"]; elem_id := "" |}.
Definition panels_node : node :=
  {| tagName := "UL"; classes := ["aloha-sidebar-panels"]; elem_id := "" |}.
Definition li_node (id : string) : node :=
  {| tagName := "LI"; classes := []; elem_id := id |}.
Definition title_node : node :=
  {| tagName := "DIV"; classes := ["aloha-sidebar-panel-title"]; elem_id := "" |}.
Definition content_node : node :=
  {| tagName := "DIV"; classes := ["aloha-sidebar-panel-content"]; elem_id := "" |}.
Definition pre_node : node :=
  {| tagName := "PRE"; classes := []; elem_id := "" |}.
Definition b_node : node :=
  {| tagName := "B"; classes := []; elem_id := "" |}.

Example click_in_content :
  barClicked demo_sidebar
    [pre_node; content_node; li_node "t2"; panels_node; inner_node; bar_node]
  = (demo_sidebar, Done tt).
Proof. reflexivity. Qed.

Lemma handleBarclick_nearest_witness :
  (∀ m, m ∈ [b_node] → significant m = false)
  ∧ handleBarclick demo_sidebar [b_node] = (demo_sidebar, Raised "RangeError")
  ∧ handleBarclick demo_sidebar
      ([b_node] ++ title_node :: [li_node "t2"; panels_node; inner_node; bar_node])
    = togglePanel demo_sidebar
        (title_node :: [li_node "t2"; panels_node; inner_node; bar_node]).
Proof.
  assert (∀ m, m ∈ [b_node] → significant m = false) as H.
  { intros m Hm. apply list_elem_of_singleton in Hm. rewrite Hm. reflexivity. }
  destruct (handleBarclick_nearest demo_sidebar [b_node] H) as [H1 H2].
  split; [exact H|]. split; [exact H1|].
  exact (H2 title_node [li_node "t2"; panels_node; inner_node; bar_node] eq_refl).
Defined.

Lemma title_click_witness :
  "aloha-sidebar-panel-title" ∈ classes title_node
  ∧ tagName title_node ≠ "LI" ∧ tagName (li_node "t2") = "LI"
  ∧ ∃ st', barClicked demo_sidebar
             [title_node; li_node "t2"; panels_node; inner_node; bar_node] = (st', Done tt)
      ∧ expanded st' 1 = false
      ∧ log st' = [Animated 1 Zero None].
Proof.
  assert ("aloha-sidebar-panel-title" ∈ classes title_node) as H1
    by apply list_elem_of_here.
  assert (tagName title_node ≠ "LI") as H2 by discriminate.
  split; [exact H1|]. split; [exact H2|]. split; [reflexivity|].
  destruct (title_click demo_sidebar title_node (li_node "t2")
              [panels_node; inner_node; bar_node] H1 H2 eq_refl)
    as (st' & Hc & He & _ & _ & Hl & _).
  exists st'. split; [exact Hc|]. split; [exact He|exact Hl].
Defined.

Example collapsePanel_demo :
  log (collapsePanel demo_sidebar (AString "t1") NotFn (Fn 7)).1 = [Animated 0 Zero None]
  ∧ log (expandPanel demo_sidebar (AString "t1") (Fn 7)).1 = [Animated 0 Natural (Some 7)]
  ∧ expandPanel demo_sidebar (AString "t3") (Fn 7) = (demo_sidebar, Done tt)
  ∧ expandPanel demo_sidebar (AString "constructor") (Fn 7)
    = (demo_sidebar, Raised "TypeError").
Proof. repeat split; reflexivity. Qed.

End Sidebar.
